(** * Dialogue tree: current path, layout and node actions

    A shallow embedding of the dialogue-tree model ([DialogueNode],
    [DialogueTree]) and of the dialogue-tree modal
    (components/DialogueTreeModal.tsx): the walk that computes the current
    path, the grid layout with its labels and edge categories, and the
    handlers behind the "jump" and "edit" actions.

    JavaScript strings are modelled by [string]; one character stands for
    one UTF-16 code unit, so [String.length] is the [.length] of the source. *)

From stdpp Require Import base tactics option list relations strings gmap pretty.
From Stdlib Require Import Lia PeanoNat.

(** ** Data model *)

(** Modelled from the spec: the declaration of [ParsedResponse]
    (lib/models/parsed-response) is not part of the sources at hand.  The
    modal reads and writes one field of it, the compressed summary of the
    response, which may be absent. *)
Record ParsedResponse := mkParsedResponse {
  compressedContent : option string;
}.

Record DialogueNode := mkDialogueNode {
  node_id : string;
  parent_node_id : string;
  user_input : string;
  assistant_response : string;
  full_response : string;
  parsed_content : option ParsedResponse;
  created_at : string;
}.

Record DialogueTree := mkDialogueTree {
  tree_id : string;
  character_id : string;
  current_node_id : string;
  nodes : list DialogueNode;
  tree_created_at : string;
  tree_updated_at : string;
}.

Definition rootId : string := "root".

(** ** The current path *)

(** [allNodes.find(n => n.node_id === tempNodeId)]: the first node carrying
    the identifier, if any. *)
Definition findNode (allNodes : list DialogueNode) (tempNodeId : string)
  : option DialogueNode :=
  List.find (fun n => bool_decide (node_id n = tempNodeId)) allNodes.

(** The [while (tempNodeId !== "root")] loop of [fetchDialogueData].  The
    loop has no bound of its own in the source; [fuel] bounds the number of
    executions of the loop body, and [None] means the bound was reached with
    the loop still running. *)
Fixpoint walkPath (fuel : nat) (allNodes : list DialogueNode)
    (tempNodeId : string) (currentPathNodeIds : list string)
  : option (list string) :=
  if decide (tempNodeId = rootId) then Some currentPathNodeIds
  else
    match fuel with
    | O => None
    | S fuel' =>
        let pushed := currentPathNodeIds ++ [tempNodeId] in
        match findNode allNodes tempNodeId with
        | None => Some pushed
        | Some node => walkPath fuel' allNodes (parent_node_id node) pushed
        end
    end.

Definition computeCurrentPath (fuel : nat) (allNodes : list DialogueNode)
    (currentNodeId : string) : option (list string) :=
  walkPath fuel allNodes currentNodeId [].

(** One parent link as the walk follows it: from a non-root identifier to the
    parent of the first node that carries it. *)
Inductive parentLink (allNodes : list DialogueNode) : string -> string -> Prop :=
| parentLink_intro (i : string) (node : DialogueNode) :
    i <> rootId ->
    findNode allNodes i = Some node ->
    parentLink allNodes i (parent_node_id node).

(** No identifier reaches itself through one or more parent links. *)
Definition acyclic (allNodes : list DialogueNode) : Prop :=
  forall i, ~ tc (parentLink allNodes) i i.

Definition hasRoot (allNodes : list DialogueNode) : Prop :=
  rootId ∈ map node_id allNodes.

(** Sample trees. *)
Definition plainNode (i p : string) : DialogueNode :=
  mkDialogueNode i p "" "" "" None "".

Definition chainNodes : list DialogueNode :=
  [ plainNode "root" ""; plainNode "A" "root"; plainNode "B" "A" ].

Definition cyclicNodes : list DialogueNode :=
  [ plainNode "root" ""; plainNode "A" "B"; plainNode "B" "A" ].

Definition rootlessNodes : list DialogueNode := [ plainNode "A" "X" ].

(** The root and a node "A" whose parent identifier is "constructor", the
    identifier of no node. *)
Definition constructorNodes : list DialogueNode :=
  [ plainNode "root" ""; plainNode "A" "constructor" ].

(** ** External collaborators *)

(** The translation function of [useLanguage]. *)
Class Language := { t : string -> string }.

(** The two regular expressions applied to [user_input]:
    [matchInputMessage] is capture group 1 of
    [/<input_message>([\s\S]*?)<\/input_message>/] ([None] when there is no
    match) and [stripPlayerPrefix] is the [replace] that removes the leading
    "player input" prefix. *)
Class InputMarkup := {
  matchInputMessage : string -> option string;
  stripPlayerPrefix : string -> string;
}.

(** ** Layout: grid shape *)

(** [Math.round(Math.sqrt(n))] on a node count.  The square root of a natural
    number is never half-way between two integers, so rounding it yields the
    integer [k] with [k*k - k < n <= k*k + k]; the computation below finds
    it from the integer square root.  (For the length of an array the
    double-precision square root lies on the same side of [k + 1/2] as the
    exact one, so the source computes the same integer.) *)
Definition roundSqrt (n : nat) : nat :=
  let s := Nat.sqrt n in
  if n - s * s <=? s then s else S s.

(** The [columns] component of [calculateOptimalLayout].  The two gaps it
    also returns are floating-point pixel distances; they scale the picture
    and play no part in which cell a node gets. *)
Definition calculateOptimalLayout (nodeCount : nat) : nat :=
  if nodeCount <=? 3 then 1 else Nat.max 1 (roundSqrt nodeCount).

(** [Math.ceil(a / b)] on natural numbers. *)
Definition ceilDiv (a b : nat) : nat := (a + (b - 1)) / b.

Definition rowsOf (nodeCount : nat) : nat :=
  ceilDiv nodeCount (calculateOptimalLayout nodeCount).

(** [(col, row)] of the node at position [index] of [allNodes]. *)
Definition gridCell (columns index : nat) : nat * nat :=
  (index mod columns, index / columns).

(** ** Layout: labels *)

(** JavaScript truthiness of a string. *)
Definition truthy (s : string) : bool := negb (bool_decide (s = "")).

(** [rootChildren.findIndex(n => n.node_id === id)], [-1] when absent. *)
Definition findIndex (i : string) (l : list DialogueNode) : Z :=
  match list_find (fun n => node_id n = i) l with
  | Some (k, _) => Z.of_nat k
  | None => (-1)%Z
  end.

Definition rootChildrenOf (allNodes : list DialogueNode) : list DialogueNode :=
  filter (fun n => parent_node_id n = rootId) allNodes.

(** [node.parsed_content?.compressedContent] *)
Definition summaryOf (node : DialogueNode) : option string :=
  parsed_content node ≫= compressedContent.

Definition shortResponse (response : string) : string :=
  if 30 <? String.length response
  then String.substring 0 30 response +:+ "..."
  else response.

Definition nodeLabel {lang : Language} (allNodes : list DialogueNode)
    (node : DialogueNode) : string :=
  if decide (node_id node = rootId) then "root"
  else if decide (parent_node_id node = rootId) then
    let rootChildren := rootChildrenOf allNodes in
    let rootChildIndex := findIndex (node_id node) rootChildren in
    let rootChildrenCount := Z.of_nat (length rootChildren) in
    t "dialogue.startingPoint"
      +:+ pretty (rootChildrenCount - rootChildIndex)%Z
      +:+ (if (1 <? rootChildrenCount)%Z
           then "/" +:+ pretty rootChildrenCount else "")
  else if truthy (assistant_response node) then
    match summaryOf node with
    | Some summary =>
        if truthy summary then summary
        else shortResponse (assistant_response node)
    | None => shortResponse (assistant_response node)
    end
  else t "dialogue.systemMessage".

(** ** Layout: nodes and edges handed to the graph widget *)

Record NodeData := mkNodeData {
  label : string;
  fullContent : string;
  userInput : string;
  assistantResponse : string;
  parsedContent : ParsedResponse;
  isCurrentPath : bool;
  characterId : string;
}.

(** A node of the graph widget (the interface the modal calls
    [DialogueNode]).  [cell] is the grid cell from which the pixel position
    is computed; the two click callbacks are the handlers further below. *)
Record FlowNode := mkFlowNode {
  flow_id : string;
  data : NodeData;
  cell : nat * nat;
}.

Record Edge := mkEdge {
  edge_id : string;
  source : string;
  target : string;
  edge_label : string;
  stroke : string;
  labelStroke : string;
  labelFill : string;
  strokeWidth : nat;
  className : string;
}.

(** [nodeMap] is a plain object, [{}], filled by
    [nodeMap[node.node_id] = node] and read by [nodeMap[key]] in a test.
    Such an object answers not only for the keys assigned to it but also for
    the names it inherits.  [ownNodes] are the assigned keys; [protoNode] is
    the node assigned under the key "__proto__", if any: that assignment
    creates no key but makes the node the prototype of the object. *)
Record NodeMap := mkNodeMap {
  ownNodes : gmap string DialogueNode;
  protoNode : option DialogueNode;
}.

(** The names every plain object inherits from [Object.prototype]; each of
    them reads as a function or an object, hence as true in a test. *)
Definition objectPrototypeKeys : list string :=
  [ "constructor"; "__defineGetter__"; "__defineSetter__"; "hasOwnProperty";
    "__lookupGetter__"; "__lookupSetter__"; "isPrototypeOf";
    "propertyIsEnumerable"; "toString"; "valueOf"; "__proto__";
    "toLocaleString" ].

(** [node[key]] in a test, for the fields of a node. *)
Definition fieldTruthy (node : DialogueNode) (key : string) : bool :=
  if decide (key = "node_id") then truthy (node_id node)
  else if decide (key = "parent_node_id") then truthy (parent_node_id node)
  else if decide (key = "user_input") then truthy (user_input node)
  else if decide (key = "assistant_response") then truthy (assistant_response node)
  else if decide (key = "full_response") then truthy (full_response node)
  else if decide (key = "parsed_content")
       then bool_decide (is_Some (parsed_content node))
  else if decide (key = "created_at") then truthy (created_at node)
  else false.

(** [nodeMap[node.node_id] = node] *)
Definition assignNode (nodeMap : NodeMap) (node : DialogueNode) : NodeMap :=
  if decide (node_id node = "__proto__")
  then {| ownNodes := ownNodes nodeMap; protoNode := Some node |}
  else {| ownNodes := <[node_id node := node]> (ownNodes nodeMap);
          protoNode := protoNode nodeMap |}.

Definition nodeMapOf (allNodes : list DialogueNode) : NodeMap :=
  foldl assignNode {| ownNodes := ∅; protoNode := None |} allNodes.

(** [nodeMap[key]] in a test: an assigned key, an inherited name, or a
    field of the node that was made the prototype. *)
Definition nodeMapTruthy (nodeMap : NodeMap) (key : string) : bool :=
  bool_decide (is_Some (ownNodes nodeMap !! key))
  || bool_decide (key ∈ objectPrototypeKeys)
  || match protoNode nodeMap with
     | Some node => fieldTruthy node key
     | None => false
     end.

Definition includes (l : list string) (x : string) : bool :=
  bool_decide (x ∈ l).

Definition buildNode {lang : Language} {markup : InputMarkup} (characterId : string)
    (allNodes : list DialogueNode) (currentPathNodeIds : list string)
    (columns index : nat) (node : DialogueNode) : FlowNode :=
  {| flow_id := node_id node;
     data :=
       {| label := nodeLabel allNodes node;
          fullContent := assistant_response node;
          userInput :=
            stripPlayerPrefix (default "" (matchInputMessage (user_input node)));
          assistantResponse := assistant_response node;
          parsedContent := default (mkParsedResponse None) (parsed_content node);
          isCurrentPath := includes currentPathNodeIds (node_id node);
          characterId := characterId |};
     cell := gridCell columns index |}.

Definition edgeLabelOf {markup : InputMarkup} (input : string) : string :=
  match matchInputMessage input with
  | Some inner => stripPlayerPrefix inner
  | None => ""
  end.

(** The body of the second [allNodes.forEach]: at most one edge per node. *)
Definition buildEdge {markup : InputMarkup} (nodeMap : NodeMap)
    (currentPathNodeIds : list string) (node : DialogueNode) : option Edge :=
  if truthy (node_id node) && negb (bool_decide (node_id node = rootId)) then
    let sourceId := parent_node_id node in
    let targetId := node_id node in
    if nodeMapTruthy nodeMap sourceId && nodeMapTruthy nodeMap targetId then
      let isCurrentPathEdge :=
        includes currentPathNodeIds sourceId
        && includes currentPathNodeIds targetId in
      let isRootSource := bool_decide (sourceId = rootId) in
      Some
        {| edge_id := "edge-" +:+ sourceId +:+ "-" +:+ targetId;
           source := sourceId;
           target := targetId;
           edge_label := edgeLabelOf (user_input node);
           stroke := if isRootSource then "#a78bfa"
                     else if isCurrentPathEdge then "#ef4444" else "#8a7a64";
           labelStroke := if isRootSource then "#7c3aed"
                          else if isCurrentPathEdge then "#991b1b" else "#3a3633";
           labelFill := if isRootSource then "#ddd6fe"
                        else if isCurrentPathEdge then "#fecaca" else "#a8a095";
           strokeWidth := if isCurrentPathEdge || isRootSource then 3 else 2;
           className := if isRootSource then "root-source"
                        else if isCurrentPathEdge then "current-path"
                        else "other-path" |}
    else None
  else None.

Definition buildNodes {lang : Language} {markup : InputMarkup} (characterId : string)
    (allNodes : list DialogueNode) (currentPathNodeIds : list string)
  : list FlowNode :=
  let columns := calculateOptimalLayout (length allNodes) in
  imap (buildNode characterId allNodes currentPathNodeIds columns) allNodes.

Definition buildEdges {markup : InputMarkup} (allNodes : list DialogueNode)
    (currentPathNodeIds : list string) : list Edge :=
  omap (buildEdge (nodeMapOf allNodes) currentPathNodeIds) allNodes.

(** ** [fetchDialogueData] *)

(** The [tree] object of the response of [getCharacterDialogue]. *)
Record TreeView := mkTreeView {
  view_nodes : list DialogueNode;
  currentNodeId : option string;
}.

(** [dialogue.tree.currentNodeId || "root"] *)
Definition effectiveCurrent (tree : TreeView) : string :=
  match currentNodeId tree with
  | Some i => if truthy i then i else rootId
  | None => rootId
  end.

(** The graph computed by [fetchDialogueData] from a non-empty node list:
    [newNodes] and [newEdges].  [None]: the loop of the current path was
    still running after [fuel] iterations. *)
Definition layoutGraph {lang : Language} {markup : InputMarkup} (fuel : nat)
    (characterId : string) (tree : TreeView)
  : option (list FlowNode * list Edge) :=
  let allNodes := view_nodes tree in
  currentPathNodeIds ← computeCurrentPath fuel allNodes (effectiveCurrent tree);
  Some (buildNodes characterId allNodes currentPathNodeIds,
        buildEdges allNodes currentPathNodeIds).

(** State of the modal ([useState] / [useNodesState] / [useEdgesState]). *)
Record ModalState := mkModalState {
  flowNodes : list FlowNode;
  flowEdges : list Edge;
  selectedNode : option FlowNode;
  isEditModalOpen : bool;
  editContent : string;
  isSaving : bool;
  dataLoaded : bool;
  isJumpingToNode : bool;
}.

Definition setGraph (st : ModalState) (ns : list FlowNode) (es : list Edge)
  : ModalState :=
  {| flowNodes := ns; flowEdges := es;
     selectedNode := selectedNode st; isEditModalOpen := isEditModalOpen st;
     editContent := editContent st; isSaving := isSaving st;
     dataLoaded := true; isJumpingToNode := isJumpingToNode st |}.

Definition setDataLoaded (st : ModalState) : ModalState :=
  {| flowNodes := flowNodes st; flowEdges := flowEdges st;
     selectedNode := selectedNode st; isEditModalOpen := isEditModalOpen st;
     editContent := editContent st; isSaving := isSaving st;
     dataLoaded := true; isJumpingToNode := isJumpingToNode st |}.

(** [response]: the tree of a successful, well-formed response, [None] for
    every response on which the source throws before reading the nodes. *)
Definition fetchDialogueData {lang : Language} {markup : InputMarkup} (fuel : nat)
    (characterId : string) (response : option TreeView) (st : ModalState)
  : option ModalState :=
  if truthy characterId then
    match response with
    | None => Some (setDataLoaded st)
    | Some tree =>
        match view_nodes tree with
        | [] => Some (setDataLoaded st)
        | _ :: _ =>
            '(newNodes, newEdges) ← layoutGraph fuel characterId tree;
            Some (setGraph st newNodes newEdges)
        end
    end
  else Some st.

(** ** The "jump" action *)

(** What the handlers can reach outside the component: the stored tree of
    the character, the browser's local storage, and a record of the calls
    made to the collaborators. *)
Record World := mkWorld {
  store : DialogueTree;
  localStorage : gmap string string;
  switchCalls : list (string * string);
  editCalls : list (string * string);
  consoleErrors : list string;
  dialogueEditNotified : nat;
  closeScheduled : bool;
}.

(** The operations of the dialogue service that the modal imports and whose
    code is outside the sources at hand: [switchDialogueBranch] with the
    [success] flag of its response, the summarizer behind the edit, and the
    clock. *)
Class DialogueService := {
  switchDialogueBranch : string -> string -> DialogueTree -> bool * DialogueTree;
  summarize : gmap string string -> string -> option string;
  now : string;
}.

Definition logError (msg : string) (w : World) : World :=
  {| store := store w; localStorage := localStorage w;
     switchCalls := switchCalls w; editCalls := editCalls w;
     consoleErrors := consoleErrors w ++ [msg];
     dialogueEditNotified := dialogueEditNotified w;
     closeScheduled := closeScheduled w |}.

(** The optional property [onDialogueEdit] of the modal as a handler that
    awaits it meets it: not given, given and returning, or given and failing
    (the call throws or its promise is rejected). *)
Inductive OwnerCallback := CallbackAbsent | CallbackReturns | CallbackFails.

Class ModalOwner := { onDialogueEdit : OwnerCallback }.

Definition notifyOwner (w : World) : World :=
  {| store := store w; localStorage := localStorage w;
     switchCalls := switchCalls w; editCalls := editCalls w;
     consoleErrors := consoleErrors w;
     dialogueEditNotified := S (dialogueEditNotified w);
     closeScheduled := closeScheduled w |}.

Definition scheduleClose (w : World) : World :=
  {| store := store w; localStorage := localStorage w;
     switchCalls := switchCalls w; editCalls := editCalls w;
     consoleErrors := consoleErrors w;
     dialogueEditNotified := dialogueEditNotified w;
     closeScheduled := true |}.

Definition setIsJumpingToNode (b : bool) (st : ModalState) : ModalState :=
  {| flowNodes := flowNodes st; flowEdges := flowEdges st;
     selectedNode := selectedNode st; isEditModalOpen := isEditModalOpen st;
     editContent := editContent st; isSaving := isSaving st;
     dataLoaded := dataLoaded st; isJumpingToNode := b |}.

(** [handleJumpToNode] is rebuilt on every render, and the nodes keep the one
    of the render in which [fetchDialogueData] built them: its guard reads
    the [isJumpingToNode] of that render ([captured]), not the flag raised
    since.  This is the part up to the [await]: the guard, the raising of
    the flag in the modal state of the moment ([live]) and the request.
    [None] is the bare [return] of the guard. *)
Definition beginJumpToNode (characterId : string) (captured : ModalState)
    (nodeId : string) (live : ModalState) (w : World)
  : option (ModalState * World) :=
  if negb (truthy characterId) || isJumpingToNode captured then None
  else
    Some (setIsJumpingToNode true live,
          {| store := store w; localStorage := localStorage w;
             switchCalls := switchCalls w ++ [(characterId, nodeId)];
             editCalls := editCalls w;
             consoleErrors := consoleErrors w;
             dialogueEditNotified := dialogueEditNotified w;
             closeScheduled := closeScheduled w |}).

(** What the answer of the switch operation leads to: the value returned
    and the effects on the world.  A failed switch (an answer without
    [success], or a call that throws), and a failing [onDialogueEdit] after
    a successful one, end in the [catch]. *)
Definition settleJump {owner : ModalOwner} (success : bool) (w : World)
  : bool * World :=
  if success then
    match onDialogueEdit with
    | CallbackAbsent => (true, scheduleClose w)
    | CallbackReturns => (true, scheduleClose (notifyOwner w))
    | CallbackFails => (false, logError "Error jumping to node:" (notifyOwner w))
    end
  else (false, logError "Error jumping to node:" w).

(** The part of [handleJumpToNode] after the [await]: the switch operation
    has acted on the stored tree and answered; the flag is lowered in the
    [finally]. *)
Definition endJumpToNode {service : DialogueService} {owner : ModalOwner}
    (characterId nodeId : string) (live : ModalState) (w : World)
  : bool * ModalState * World :=
  let '(success, tree') := switchDialogueBranch characterId nodeId (store w) in
  let answered :=
    {| store := tree'; localStorage := localStorage w;
       switchCalls := switchCalls w; editCalls := editCalls w;
       consoleErrors := consoleErrors w;
       dialogueEditNotified := dialogueEditNotified w;
       closeScheduled := closeScheduled w |} in
  let '(value, w') := settleJump success answered in
  (value, setIsJumpingToNode false live, w').

(** [handleJumpToNode] run from the request to its answer with nothing
    happening in between, as a function of the captured state and the
    world.  [None] is the bare [return] of the guard. *)
Definition handleJumpToNode {service : DialogueService} {owner : ModalOwner}
    (characterId : string) (captured : ModalState) (nodeId : string)
    (w : World) : option bool * World :=
  if negb (truthy characterId) || isJumpingToNode captured then (None, w)
  else
    let '(success, tree') := switchDialogueBranch characterId nodeId (store w) in
    let called :=
      {| store := tree'; localStorage := localStorage w;
         switchCalls := switchCalls w ++ [(characterId, nodeId)];
         editCalls := editCalls w;
         consoleErrors := consoleErrors w;
         dialogueEditNotified := dialogueEditNotified w;
         closeScheduled := closeScheduled w |} in
    let '(value, w') := settleJump success called in
    (Some value, w').

(** Local state of one [DialogueNodeComponent]. *)
Record NodeComponentState := mkNodeComponentState {
  isExpanded : bool;
  isJumping : bool;
  showRootTooltip : bool;
}.

(** [handleJumpClick] of the node whose identifier is [i]; [onJumpClick] is
    [data.onJumpClick].  The tooltip raised for the root node shows
    [t "dialogue.rootNodeCannotJump"] and is hidden again by a timer. *)
Definition handleJumpClick (onJumpClick : string -> World -> option bool * World)
    (i : string) (cs : NodeComponentState) (w : World)
  : NodeComponentState * World :=
  if decide (i = rootId) then
    ({| isExpanded := isExpanded cs; isJumping := isJumping cs;
        showRootTooltip := true |}, w)
  else if isJumping cs then (cs, w)
  else
    let '(_, w') := onJumpClick i w in
    ({| isExpanded := isExpanded cs; isJumping := false;
        showRootTooltip := showRootTooltip cs |}, w').

(** ** The "edit" action *)

Inductive EditError := NotFound | UpstreamFailure.

Definition editedNode (newText summary : string) (n : DialogueNode)
  : DialogueNode :=
  {| node_id := node_id n; parent_node_id := parent_node_id n;
     user_input := user_input n; assistant_response := newText;
     full_response := full_response n;
     parsed_content := Some {| compressedContent := Some summary |};
     created_at := created_at n |}.

(** Modelled from the spec: [editNodeContent], the operation behind
    [editDialaogueNodeContent] (function/dialogue/edit), whose code is not
    part of the sources at hand.  The node must exist; the summarizer is
    asked for a compressed form of the new text; only when it answers are the
    text and the summary stored in the node, and [updated_at] refreshed. *)
Definition editNodeContent (summarizer : string -> option string)
    (stamp : string) (tree : DialogueTree) (nodeId newText : string)
  : EditError + DialogueTree :=
  match findNode (nodes tree) nodeId with
  | None => inl NotFound
  | Some _ =>
      match summarizer newText with
      | None => inl UpstreamFailure
      | Some summary =>
          inr {| tree_id := tree_id tree;
                 character_id := character_id tree;
                 current_node_id := current_node_id tree;
                 nodes :=
                   map (fun n => if decide (node_id n = nodeId)
                                 then editedNode newText summary n else n)
                       (nodes tree);
                 tree_created_at := tree_created_at tree;
                 tree_updated_at := stamp |}
      end
  end.

Record EditResponse := mkEditResponse {
  success : bool;
  summary : option string;
}.

(** [localStorage.getItem(key) || fallback] *)
Definition getItemOr (ls : gmap string string) (key fallback : string) : string :=
  match ls !! key with
  | Some v => if truthy v then v else fallback
  | None => fallback
  end.

(** The connection parameters that [saveEditContent] reads from local
    storage and passes along with the request. *)
Definition connectionParams (ls : gmap string string) : gmap string string :=
  <["model_name" := getItemOr ls "modelName" ""]>
  (<["api_key" := getItemOr ls "apiKey" ""]>
  (<["base_url" := getItemOr ls "modelBaseUrl" ""]>
  (<["llm_type" := getItemOr ls "llmType" "openai"]>
  (<["language" := getItemOr ls "language" "zh"]> ∅)))).

(** Modelled from the spec: [editDialaogueNodeContent], the request that
    runs [editNodeContent] on the stored tree and answers with [success] and
    the new summary. *)
Definition editDialaogueNodeContent {service : DialogueService}
    (params : gmap string string) (nodeId newText : string)
    (tree : DialogueTree) : EditResponse * DialogueTree :=
  match editNodeContent (summarize params) now tree nodeId newText with
  | inr tree' =>
      ({| success := true; summary := summarize params newText |}, tree')
  | inl _ => ({| success := false; summary := None |}, tree)
  end.

(** The [nds.map] of [saveEditContent]. *)
Definition updateFlowNode (selectedId newText : string)
    (newSummary : option string) (node : FlowNode) : FlowNode :=
  if decide (flow_id node = selectedId) then
    {| flow_id := flow_id node;
       data :=
         {| label := label (data node);
            fullContent := fullContent (data node);
            userInput := userInput (data node);
            assistantResponse := newText;
            parsedContent := {| compressedContent := newSummary |};
            isCurrentPath := isCurrentPath (data node);
            characterId := characterId (data node) |};
       cell := cell node |}
  else node.

Definition saveEditContent {service : DialogueService} (characterId : string)
    (st : ModalState) (w : World) : ModalState * World :=
  match selectedNode st with
  | Some selected =>
      if truthy characterId then
        let '(response, tree') :=
          editDialaogueNodeContent (connectionParams (localStorage w))
            (flow_id selected) (editContent st) (store w) in
        let called :=
          {| store := tree'; localStorage := localStorage w;
             switchCalls := switchCalls w;
             editCalls := editCalls w ++ [(flow_id selected, editContent st)];
             consoleErrors := consoleErrors w;
             dialogueEditNotified := dialogueEditNotified w;
             closeScheduled := closeScheduled w |} in
        if success response then
          ({| flowNodes :=
                map (updateFlowNode (flow_id selected) (editContent st)
                       (summary response)) (flowNodes st);
              flowEdges := flowEdges st;
              selectedNode := selectedNode st;
              isEditModalOpen := false;
              editContent := editContent st;
              isSaving := false;
              dataLoaded := dataLoaded st;
              isJumpingToNode := isJumpingToNode st |},
           {| store := store called; localStorage := localStorage called;
              switchCalls := switchCalls called; editCalls := editCalls called;
              consoleErrors := consoleErrors called;
              dialogueEditNotified := S (dialogueEditNotified called);
              closeScheduled := closeScheduled called |})
        else
          ({| flowNodes := flowNodes st; flowEdges := flowEdges st;
              selectedNode := selectedNode st;
              isEditModalOpen := isEditModalOpen st;
              editContent := editContent st;
              isSaving := false;
              dataLoaded := dataLoaded st;
              isJumpingToNode := isJumpingToNode st |},
           logError "Error saving edited content:" called)
      else
        ({| flowNodes := flowNodes st; flowEdges := flowEdges st;
            selectedNode := selectedNode st; isEditModalOpen := false;
            editContent := editContent st; isSaving := isSaving st;
            dataLoaded := dataLoaded st;
            isJumpingToNode := isJumpingToNode st |}, w)
  | None =>
      ({| flowNodes := flowNodes st; flowEdges := flowEdges st;
          selectedNode := selectedNode st; isEditModalOpen := false;
          editContent := editContent st; isSaving := isSaving st;
          dataLoaded := dataLoaded st;
          isJumpingToNode := isJumpingToNode st |}, w)
  end.

(** ** The label in the words of the specification *)



(** ** Sample collaborators and nodes for the examples *)

Definition sampleLanguage : Language :=
  {| t := fun key =>
       if decide (key = "dialogue.startingPoint") then "Starting Point "
       else if decide (key = "dialogue.systemMessage") then "System Message"
       else key |}.

Definition sampleMarkup : InputMarkup :=
  {| matchInputMessage := fun _ => None; stripPlayerPrefix := fun s => s |}.


Definition replyNode (i p response : string) : DialogueNode :=
  mkDialogueNode i p "" response response None "".

(** Ten nodes, two of them direct children of root. *)
Definition tenNodes : list DialogueNode :=
  [ plainNode "root" "";
    replyNode "s1" "root" "first opening";
    replyNode "a1" "s1" "reply";
    replyNode "a2" "a1" "reply";
    replyNode "s2" "root" "second opening";
    replyNode "b1" "s2" "reply";
    replyNode "b2" "b1" "reply";
    replyNode "b3" "b2" "reply";
    replyNode "a3" "a2" "reply";
    replyNode "b4" "b3" "reply" ].

(** The three-node chain with "B" current. *)
Definition chainTree : TreeView :=
  {| view_nodes := chainNodes; currentNodeId := Some "B" |}.

(** The three-node chain with a current identifier that no node carries. *)
Definition danglingTree : TreeView :=
  {| view_nodes := chainNodes; currentNodeId := Some "Z" |}.

(** The three-node chain with an empty current identifier. *)
Definition emptyCurrentTree : TreeView :=
  {| view_nodes := chainNodes; currentNodeId := Some "" |}.

(** The root and "A" below "constructor", with the root current. *)
Definition constructorTree : TreeView :=
  {| view_nodes := constructorNodes; currentNodeId := Some "root" |}.

(** The columns of an edge that the claims speak about. *)
Definition edgeSummary (e : Edge) : string * string * string * nat :=
  (source e, target e, className e, strokeWidth e).

(** A service whose summarizer answers "B-summary" for the text "bar" and
    fails on every other text, and whose branch switch moves the current
    pointer to any identifier that a node carries. *)
Definition sampleService : DialogueService :=
  {| switchDialogueBranch := fun _ nodeId tree =>
       match findNode (nodes tree) nodeId with
       | Some _ =>
           (true,
            {| tree_id := tree_id tree; character_id := character_id tree;
               current_node_id := nodeId; nodes := nodes tree;
               tree_created_at := tree_created_at tree;
               tree_updated_at := "later" |})
       | None => (false, tree)
       end;
     summarize := fun _ text =>
       if decide (text = "bar") then Some "B-summary" else None;
     now := "later" |}.

(** An owner that gave [onDialogueEdit], which returns. *)
Definition sampleOwner : ModalOwner := {| onDialogueEdit := CallbackReturns |}.

(** An owner whose [onDialogueEdit] fails. *)
Definition failingOwner : ModalOwner := {| onDialogueEdit := CallbackFails |}.

(** The stored tree root, A ("foo") below root, B below A, with B current. *)
Definition fooTree : DialogueTree :=
  {| tree_id := "t"; character_id := "c"; current_node_id := "B";
     nodes := [ plainNode "root" ""; replyNode "A" "root" "foo";
                replyNode "B" "A" "baz" ];
     tree_created_at := "then"; tree_updated_at := "then" |}.

Definition fooWorld : World :=
  {| store := fooTree; localStorage := ∅; switchCalls := []; editCalls := [];
     consoleErrors := []; dialogueEditNotified := 0; closeScheduled := false |}.

Definition fooFlowNodes : list FlowNode :=
  buildNodes (lang := sampleLanguage) (markup := sampleMarkup) "c" (nodes fooTree)
    ["B"; "A"].

(** The modal with node A selected and [text] typed into the edit box. *)
Definition editingA (text : string) : ModalState :=
  {| flowNodes := fooFlowNodes;
     flowEdges := buildEdges (markup := sampleMarkup) (nodes fooTree) ["B"; "A"];
     selectedNode := fooFlowNodes !! 1;
     isEditModalOpen := true; editContent := text; isSaving := false;
     dataLoaded := true; isJumpingToNode := false |}.

Definition idleComponent : NodeComponentState :=
  {| isExpanded := false; isJumping := false; showRootTooltip := false |}.

(** ** The current path as a chain of parent links *)

(** The list that the walk builds from an identifier: nothing at "root";
    the identifier alone when no node carries it; otherwise the identifier
    followed by the list built from the parent of the first node that
    carries it. *)
Inductive pathFrom (allNodes : list DialogueNode) : string -> list string -> Prop :=
| pathFrom_root : pathFrom allNodes rootId []
| pathFrom_missing (i : string) :
    i <> rootId -> findNode allNodes i = None -> pathFrom allNodes i [i]
| pathFrom_parent (i : string) (node : DialogueNode) (rest : list string) :
    i <> rootId -> findNode allNodes i = Some node ->
    pathFrom allNodes (parent_node_id node) rest ->
    pathFrom allNodes i (i :: rest).

(** ** The node component *)

(** The colour classes chosen by [DialogueNodeComponent]:
    [borderColor], [hoverBorderColor], [textColor], [expandIconColor] and
    [jumpButtonColor]. *)
Record NodePalette := mkNodePalette {
  borderColor : string;
  hoverBorderColor : string;
  textColor : string;
  expandIconColor : string;
  jumpButtonColor : string;
}.

Definition nodePalette (i : string) (onCurrentPath : bool) : NodePalette :=
  if decide (i = rootId) then
    {| borderColor := "border-purple-700";
       hoverBorderColor := "hover:border-purple-500";
       textColor := "text-purple-200";
       expandIconColor := "text-purple-400";
       jumpButtonColor := "text-purple-400 hover:text-purple-300" |}
  else if onCurrentPath then
    {| borderColor := "border-red-800";
       hoverBorderColor := "hover:border-red-600";
       textColor := "text-red-200";
       expandIconColor := "text-red-400";
       jumpButtonColor := "text-red-400 hover:text-red-300" |}
  else
    {| borderColor := "border-[#3a3633]";
       hoverBorderColor := "hover:border-[#6b635d]";
       textColor := "text-[#a8a095]";
       expandIconColor := "text-amber-700";
       jumpButtonColor := "text-amber-700 hover:text-amber-600" |}.

(** ** Opening the editor *)

(** [handleEditNode], reached from a click on a node through
    [data.onEditClick].  It searches [nodesRef.current], which the modal
    keeps equal to its node state. *)
Definition handleEditNode (nodeId : string) (st : ModalState) (w : World)
  : ModalState * World :=
  match List.find (fun node => bool_decide (flow_id node = nodeId))
                  (flowNodes st) with
  | Some nodeToEdit =>
      ({| flowNodes := flowNodes st; flowEdges := flowEdges st;
          selectedNode := Some nodeToEdit;
          isEditModalOpen := true;
          editContent := assistantResponse (data nodeToEdit);
          isSaving := isSaving st; dataLoaded := dataLoaded st;
          isJumpingToNode := isJumpingToNode st |}, w)
  | None => (st, logError "Node not found with ID:" w)
  end.

(** The colours that go with an edge class in [fetchDialogueData]:
    [edgeStroke], [edgeLabelStroke] and [edgeLabelFill]. *)
Definition edgeColors (class : string) : string * string * string :=
  if decide (class = "root-source") then ("#a78bfa", "#7c3aed", "#ddd6fe")
  else if decide (class = "current-path") then ("#ef4444", "#991b1b", "#fecaca")
  else ("#8a7a64", "#3a3633", "#a8a095").

(** ** The model sidebar (components/ModelSidebar.tsx) *)

Inductive LLMType := openai | ollama.

Definition llmTypeName (type : LLMType) : string :=
  match type with openai => "openai" | ollama => "ollama" end.

(** [APIConfig]; the fields [id], [name], [type], [baseUrl], [model] and the
    optional [apiKey]. *)
Record APIConfig := mkAPIConfig {
  config_id : string;
  config_name : string;
  config_type : LLMType;
  config_baseUrl : string;
  config_model : string;
  config_apiKey : option string;
}.

(** What the sidebar takes from outside: the two credential strings of the
    built-in configurations (kept out of this development; nothing below
    depends on their value), [JSON.stringify] and [JSON.parse] on the list of
    configurations, and [generateConfigName], whose regular expressions are
    not modelled. *)
Inductive ParsedConfigs :=
| ParseError
| ParsedList (saved : list APIConfig)
| ParsedOther.

Class SidebarHost := {
  deepseekKey : string;
  geminiKey : string;
  stringifyConfigs : list APIConfig -> string;
  parseConfigs : string -> ParsedConfigs;
  generateConfigName : list APIConfig -> LLMType -> string -> string;
}.

Definition DEFAULT_DEEPSEEK_CONFIG {host : SidebarHost} : APIConfig :=
  {| config_id := "deepseek_default";
     config_name := "【1】deepseek-v3.1";
     config_type := openai;
     config_baseUrl := "https://narratiumshop.com/v1/";
     config_model := "deepseek-v3";
     config_apiKey := Some deepseekKey |}.

Definition DEFAULT_GEMINI_CONFIG {host : SidebarHost} : APIConfig :=
  {| config_id := "gemini_default";
     config_name := "【1】gemini-pro";
     config_type := openai;
     config_baseUrl := "https://narratiumshop.com/v1/";
     config_model := "gemini-pro";
     config_apiKey := Some geminiKey |}.

Record SidebarState := mkSidebarState {
  configs : list APIConfig;
  activeConfigId : string;
  showNewConfigForm : bool;
  llmType : LLMType;
  baseUrl : string;
  model : string;
  apiKey : string;
  openaiModelList : list string;
  saveSuccess : bool;
  getModelListSuccess : bool;
  getModelListError : bool;
  modelListEmpty : bool;
}.

(** The browser as the sidebar sees it: local storage, the requests sent for
    a model list ([baseUrl], [apiKey]), and the error log. *)
Record SidebarEnv := mkSidebarEnv {
  storage : gmap string string;
  modelListRequests : list (string * string);
  sidebarErrors : list string;
}.


Definition setItem (key value : string) (env : SidebarEnv) : SidebarEnv :=
  {| storage := <[key := value]> (storage env);
     modelListRequests := modelListRequests env;
     sidebarErrors := sidebarErrors env |}.

Definition setConfigs (l : list APIConfig) (st : SidebarState) : SidebarState :=
  {| configs := l; activeConfigId := activeConfigId st;
     showNewConfigForm := showNewConfigForm st;
     llmType := llmType st; baseUrl := baseUrl st; model := model st;
     apiKey := apiKey st; openaiModelList := openaiModelList st;
     saveSuccess := saveSuccess st;
     getModelListSuccess := getModelListSuccess st;
     getModelListError := getModelListError st;
     modelListEmpty := modelListEmpty st |}.

Definition setActiveConfigId (i : string) (st : SidebarState) : SidebarState :=
  {| configs := configs st; activeConfigId := i;
     showNewConfigForm := showNewConfigForm st;
     llmType := llmType st; baseUrl := baseUrl st; model := model st;
     apiKey := apiKey st; openaiModelList := openaiModelList st;
     saveSuccess := saveSuccess st;
     getModelListSuccess := getModelListSuccess st;
     getModelListError := getModelListError st;
     modelListEmpty := modelListEmpty st |}.

Definition setShowNewConfigForm (b : bool) (st : SidebarState) : SidebarState :=
  {| configs := configs st; activeConfigId := activeConfigId st;
     showNewConfigForm := b;
     llmType := llmType st; baseUrl := baseUrl st; model := model st;
     apiKey := apiKey st; openaiModelList := openaiModelList st;
     saveSuccess := saveSuccess st;
     getModelListSuccess := getModelListSuccess st;
     getModelListError := getModelListError st;
     modelListEmpty := modelListEmpty st |}.

Definition setSaveSuccess (b : bool) (st : SidebarState) : SidebarState :=
  {| configs := configs st; activeConfigId := activeConfigId st;
     showNewConfigForm := showNewConfigForm st;
     llmType := llmType st; baseUrl := baseUrl st; model := model st;
     apiKey := apiKey st; openaiModelList := openaiModelList st;
     saveSuccess := b;
     getModelListSuccess := getModelListSuccess st;
     getModelListError := getModelListError st;
     modelListEmpty := modelListEmpty st |}.

Definition setModel (m : string) (st : SidebarState) : SidebarState :=
  {| configs := configs st; activeConfigId := activeConfigId st;
     showNewConfigForm := showNewConfigForm st;
     llmType := llmType st; baseUrl := baseUrl st; model := m;
     apiKey := apiKey st; openaiModelList := openaiModelList st;
     saveSuccess := saveSuccess st;
     getModelListSuccess := getModelListSuccess st;
     getModelListError := getModelListError st;
     modelListEmpty := modelListEmpty st |}.

(** The four setters of the form: [setLlmType], [setBaseUrl], [setModel] and
    [setApiKey]. *)
Definition setForm (type : LLMType) (url m key : string) (st : SidebarState)
  : SidebarState :=
  {| configs := configs st; activeConfigId := activeConfigId st;
     showNewConfigForm := showNewConfigForm st;
     llmType := type; baseUrl := url; model := m; apiKey := key;
     openaiModelList := openaiModelList st;
     saveSuccess := saveSuccess st;
     getModelListSuccess := getModelListSuccess st;
     getModelListError := getModelListError st;
     modelListEmpty := modelListEmpty st |}.

(** [handleGetModelList] up to the point where the request is sent. *)
Definition handleGetModelList (url key : string) (env : SidebarEnv)
  : SidebarEnv :=
  {| storage := storage env;
     modelListRequests := modelListRequests env ++ [(url, key)];
     sidebarErrors := sidebarErrors env |}.

Definition loadConfigToForm (config : APIConfig) (st : SidebarState)
    (env : SidebarEnv) : SidebarState * SidebarEnv :=
  (setForm (config_type config) (config_baseUrl config) (config_model config)
     (default "" (config_apiKey config)) st,
   if truthy (config_baseUrl config)
      && truthy (default "" (config_apiKey config))
   then handleGetModelList (config_baseUrl config)
          (default "" (config_apiKey config)) env
   else env).

Definition findConfig (i : string) (l : list APIConfig) : option APIConfig :=
  List.find (fun c => bool_decide (config_id c = i)) l.

(** [l.some(c => c.id === i)] *)
Definition someConfig (i : string) (l : list APIConfig) : bool :=
  existsb (fun c => bool_decide (config_id c = i)) l.

(** The keys written for the connection in use: [llmType], the base URL and
    the model under the key of the type, the API key for "openai" only,
    then [modelBaseUrl] and [modelName]. *)
Definition storeConnection (type : LLMType) (url m : string)
    (key : option string) (env : SidebarEnv) : SidebarEnv :=
  let env1 := setItem "llmType" (llmTypeName type) env in
  let env2 :=
    setItem (match type with openai => "openaiBaseUrl"
                           | ollama => "ollamaBaseUrl" end) url env1 in
  let env3 :=
    setItem (match type with openai => "openaiModel"
                           | ollama => "ollamaModel" end) m env2 in
  let env4 :=
    match type, key with
    | openai, Some k => setItem "apiKey" k (setItem "openaiApiKey" k env3)
    | _, _ => env3
    end in
  setItem "modelName" m (setItem "modelBaseUrl" url env4).

(** The list that the mount effect ends up with: the saved configurations
    followed by each built-in one that is not among them. *)
Definition mergeDefaults {host : SidebarHost} (saved : list APIConfig)
  : list APIConfig :=
  let merged1 :=
    if someConfig (config_id DEFAULT_DEEPSEEK_CONFIG) saved then saved
    else saved ++ [DEFAULT_DEEPSEEK_CONFIG] in
  if someConfig (config_id DEFAULT_GEMINI_CONFIG) merged1 then merged1
  else merged1 ++ [DEFAULT_GEMINI_CONFIG].

(** [firstInit]: a built-in configuration had to be added. *)
Definition firstInitOf {host : SidebarHost} (saved : list APIConfig) : bool :=
  negb (someConfig (config_id DEFAULT_DEEPSEEK_CONFIG) saved)
  || negb (someConfig (config_id DEFAULT_GEMINI_CONFIG)
             (if someConfig (config_id DEFAULT_DEEPSEEK_CONFIG) saved
              then saved else saved ++ [DEFAULT_DEEPSEEK_CONFIG])).

(** [activeIdCandidate] *)
Definition activeIdCandidateOf {host : SidebarHost}
    (storedActiveId : option string) (mergedConfigs : list APIConfig)
  : string :=
  match storedActiveId with
  | Some a =>
      if truthy a && someConfig a mergedConfigs then a
      else config_id DEFAULT_DEEPSEEK_CONFIG
  | None => config_id DEFAULT_DEEPSEEK_CONFIG
  end.

(** What the mount effect reads from [apiConfigs]: the saved list ([[]] when
    the key is absent, empty or not parsable, the latter with an error
    logged), or [None] when the text parses to something that is not a list,
    on which the effect fails. *)
Definition readSavedConfigs {host : SidebarHost} (env : SidebarEnv)
  : option (list APIConfig * SidebarEnv) :=
  match storage env !! "apiConfigs" with
  | Some s =>
      if truthy s then
        match parseConfigs s with
        | ParsedList saved => Some (saved, env)
        | ParseError =>
            Some ([], {| storage := storage env;
                         modelListRequests := modelListRequests env;
                         sidebarErrors := sidebarErrors env
                           ++ ["Error parsing saved API configs"] |})
        | ParsedOther => None
        end
      else Some ([], env)
  | None => Some ([], env)
  end.

(** The effect run when the sidebar is mounted. *)
Definition mountSidebar {host : SidebarHost} (st : SidebarState)
    (env : SidebarEnv) : option (SidebarState * SidebarEnv) :=
  '(saved, env0) ← readSavedConfigs env;
  let mergedConfigs := mergeDefaults saved in
  let firstInit := firstInitOf saved in
  let env1 :=
    if firstInit then setItem "apiConfigs" (stringifyConfigs mergedConfigs) env0
    else env0 in
  let storedActiveId := storage env1 !! "activeConfigId" in
  let activeIdCandidate := activeIdCandidateOf storedActiveId mergedConfigs in
  let st1 := setActiveConfigId activeIdCandidate (setConfigs mergedConfigs st) in
  if firstInit
     || negb (match storedActiveId with Some a => truthy a | None => false end)
  then
    let env2 := setItem "activeConfigId" (config_id DEFAULT_DEEPSEEK_CONFIG) env1 in
    let env3 :=
      storeConnection (config_type DEFAULT_DEEPSEEK_CONFIG)
        (config_baseUrl DEFAULT_DEEPSEEK_CONFIG)
        (config_model DEFAULT_DEEPSEEK_CONFIG)
        (Some (default "" (config_apiKey DEFAULT_DEEPSEEK_CONFIG))) env2 in
    Some (loadConfigToForm DEFAULT_DEEPSEEK_CONFIG st1 env3)
  else
    config ← findConfig activeIdCandidate mergedConfigs;
    Some (loadConfigToForm config st1 env1).

Definition handleCreateConfig (st : SidebarState) : SidebarState :=
  setActiveConfigId ""
    (setShowNewConfigForm true (setForm openai "" "" "" st)).

Definition handleCancelCreate (st : SidebarState) (env : SidebarEnv)
  : SidebarState * SidebarEnv :=
  let st1 := setShowNewConfigForm false st in
  match configs st with
  | [] => (st1, env)
  | first :: _ =>
      if truthy (activeConfigId st) then
        match findConfig (activeConfigId st) (configs st) with
        | Some selectedConfig => loadConfigToForm selectedConfig st1 env
        | None =>
            loadConfigToForm first (setActiveConfigId (config_id first) st1) env
        end
      else loadConfigToForm first (setActiveConfigId (config_id first) st1) env
  end.

(** [generateId]: "api_" followed by the time in milliseconds. *)
Definition generateId (nowMs : N) : string := "api_" +:+ pretty nowMs.

(** [{ ...config, type, baseUrl, model, apiKey }] of [handleSave]. *)
Definition updatedConfig (st : SidebarState) (config : APIConfig) : APIConfig :=
  {| config_id := config_id config; config_name := config_name config;
     config_type := llmType st; config_baseUrl := baseUrl st;
     config_model := model st;
     config_apiKey :=
       match llmType st with openai => Some (apiKey st) | ollama => None end |}.

(** While the form for a new configuration is shown, [handleSave] appends
    the new configuration and returns; otherwise it rewrites the active
    configuration and stores the connection.  The success flag it raises is
    lowered again by a timer. *)
Definition handleSave {host : SidebarHost} (nowMs : N) (st : SidebarState)
    (env : SidebarEnv) : SidebarState * SidebarEnv :=
  if showNewConfigForm st then
    let newConfig :=
      {| config_id := generateId nowMs;
         config_name := generateConfigName (configs st) (llmType st) (model st);
         config_type := llmType st; config_baseUrl := baseUrl st;
         config_model := model st;
         config_apiKey :=
           match llmType st with openai => Some (apiKey st) | ollama => None end
      |} in
    let updatedConfigs := configs st ++ [newConfig] in
    (setSaveSuccess true
       (setShowNewConfigForm false
          (setActiveConfigId (config_id newConfig)
             (setConfigs updatedConfigs st))),
     setItem "activeConfigId" (config_id newConfig)
       (setItem "apiConfigs" (stringifyConfigs updatedConfigs) env))
  else
    let updatedConfigs :=
      map (fun config =>
             if decide (config_id config = activeConfigId st)
             then updatedConfig st config else config) (configs st) in
    (setSaveSuccess true (setConfigs updatedConfigs st),
     storeConnection (llmType st) (baseUrl st) (model st)
       (match llmType st with openai => Some (apiKey st) | ollama => None end)
       (setItem "apiConfigs" (stringifyConfigs updatedConfigs) env)).

Definition handleDeleteConfig {host : SidebarHost} (i : string)
    (st : SidebarState) (env : SidebarEnv) : SidebarState * SidebarEnv :=
  let updatedConfigs := filter (fun config => config_id config <> i) (configs st) in
  let st1 := setConfigs updatedConfigs st in
  let '(st2, env2) :=
    if decide (i = activeConfigId st) then
      match updatedConfigs with
      | first :: _ =>
          loadConfigToForm first (setActiveConfigId (config_id first) st1) env
      | [] => (setForm openai "" "" "" (setActiveConfigId "" st1), env)
      end
    else (st1, env) in
  let env3 := setItem "apiConfigs" (stringifyConfigs updatedConfigs) env2 in
  (st2,
   if decide (i = activeConfigId st) then
     setItem "activeConfigId"
       (match updatedConfigs with first :: _ => config_id first | [] => "" end)
       env3
   else env3).

Definition handleSwitchConfig (i : string) (st : SidebarState)
    (env : SidebarEnv) : SidebarState * SidebarEnv :=
  if decide (i = activeConfigId st) then (st, env)
  else
    let st1 := setActiveConfigId i st in
    match findConfig i (configs st) with
    | Some selectedConfig =>
        let '(st2, env2) := loadConfigToForm selectedConfig st1 env in
        (setShowNewConfigForm false st2, setItem "activeConfigId" i env2)
    | None => (st1, env)
    end.

(** The [onChange] of the model select of the active configuration. *)
Definition handleModelChange {host : SidebarHost} (newModel : string)
    (st : SidebarState) (env : SidebarEnv) : SidebarState * SidebarEnv :=
  let updatedConfigs :=
    map (fun config =>
           if decide (config_id config = activeConfigId st)
           then {| config_id := config_id config;
                   config_name := config_name config;
                   config_type := config_type config;
                   config_baseUrl := config_baseUrl config;
                   config_model := newModel;
                   config_apiKey := config_apiKey config |}
           else config) (configs st) in
  (setSaveSuccess true (setConfigs updatedConfigs (setModel newModel st)),
   setItem "modelName" newModel
     (setItem (match llmType st with openai => "openaiModel"
                                   | ollama => "ollamaModel" end) newModel
        (setItem "apiConfigs" (stringifyConfigs updatedConfigs) env))).

(** The active identifier is empty or names a listed configuration. *)
Definition activeListed (st : SidebarState) : Prop :=
  activeConfigId st = "" \/ activeConfigId st ∈ map config_id (configs st).

(** A host for the examples: the stored text "saved" parses to one custom
    configuration, every other text is a syntax error. *)
Definition customConfig : APIConfig :=
  {| config_id := "api_1"; config_name := "【1】local";
     config_type := ollama; config_baseUrl := "http://localhost:11434";
     config_model := "llama3.3:8b"; config_apiKey := None |}.

Definition sampleHost : SidebarHost :=
  {| deepseekKey := "key-one";
     geminiKey := "key-two";
     stringifyConfigs := fun l => "configs:" +:+ pretty (length l);
     parseConfigs := fun s =>
       if decide (s = "saved") then ParsedList [customConfig] else ParseError;
     generateConfigName := fun _ _ m => "【1】" +:+ m |}.

Definition emptyEnv : SidebarEnv :=
  {| storage := ∅; modelListRequests := []; sidebarErrors := [] |}.

(** The keys of local storage from which [saveEditContent] takes the
    connection parameters. *)
Definition connectionKeys : list string :=
  ["modelName"; "apiKey"; "modelBaseUrl"; "llmType"; "language"].

(** The sidebar with the custom configuration and the two built-in ones,
    the custom one active and shown in the form. *)
Definition threeConfigs : SidebarState :=
  {| configs := [customConfig;
                 DEFAULT_DEEPSEEK_CONFIG (host := sampleHost);
                 DEFAULT_GEMINI_CONFIG (host := sampleHost)];
     activeConfigId := "api_1"; showNewConfigForm := false;
     llmType := ollama; baseUrl := "http://localhost:11434";
     model := "llama3.3:8b"; apiKey := "";
     openaiModelList := []; saveSuccess := false;
     getModelListSuccess := false; getModelListError := false;
     modelListEmpty := false |}.


(** ** The character download modal *)

Record GithubFile := mkGithubFile {
  file_name : string;
  download_url : string;
}.

Record CharacterInfo := mkCharacterInfo {
  displayName : string;
  author : string;
  tags : list string;
}.

Definition TAGS : list string :=
  ["Cultivation"; "Fantasy"; "NSFW"; "Fanfiction"; "Other"].

(** String operations of the language that depend on the Unicode tables
    ([toLowerCase], [trim]), and the keywords of the tag table that are not
    written in ASCII, in the order of the table: three for "Cultivation",
    three for "Fantasy" and two for "Fanfiction". *)
Class Text := {
  toLowerCase : string -> string;
  trim : string -> string;
  cultivationWords : string * string * string;
  fantasyWords : string * string * string;
  fanfictionWords : string * string;
}.

Definition TAG_KEYWORDS {text : Text} : list (string * list string) :=
  [ ("Cultivation",
     [cultivationWords.1.1; "cultivation"; cultivationWords.1.2; "immortal";
      cultivationWords.2]);
    ("Fantasy",
     [fantasyWords.1.1; "fantasy"; fantasyWords.1.2; "magic";
      fantasyWords.2]);
    ("NSFW", ["nsfw"; "adult"; "18+"; "mature"; "r18"]);
    ("Fanfiction",
     [fanfictionWords.1; "fanfiction"; "fan"; fanfictionWords.2; "doujin"]) ].

(** [s.endsWith(suffix)] *)
Definition endsWith (s suffix : string) : bool :=
  (String.length suffix <=? String.length s)
  && bool_decide
       (String.substring (String.length s - String.length suffix)
          (String.length suffix) s = suffix).

(** [s.replace(/\.png$/, "")] *)
Definition dropPng (s : string) : string :=
  if endsWith s ".png" then String.substring 0 (String.length s - 4) s else s.

(** [s.split(/--/)]: [current] is the piece being read. *)
Fixpoint splitDashes (s current : string) : list string :=
  match s with
  | EmptyString => [current]
  | String a rest =>
      match rest with
      | String b rest' =>
          if bool_decide (String a (String b EmptyString) = "--")
          then current :: splitDashes rest' ""
          else splitDashes rest (current +:+ String a EmptyString)
      | EmptyString => [current +:+ String a EmptyString]
      end
  end.

(** [haystack.includes(needle)] *)
Definition includesText (haystack needle : string) : bool :=
  match String.index 0 needle haystack with
  | Some _ => true
  | None => false
  end.

Definition keywordHit {text : Text} (displayName nameWithoutExt : string)
    (keywords : list string) : bool :=
  existsb (fun keyword =>
             includesText (toLowerCase displayName) (toLowerCase keyword)
             || includesText (toLowerCase nameWithoutExt) (toLowerCase keyword))
          keywords.

Definition extractCharacterInfo {lang : Language} {text : Text}
    (fileName : string) : CharacterInfo :=
  let nameWithoutExt := dropPng fileName in
  let parts := splitDashes nameWithoutExt "" in
  let '(displayName, author) :=
    match parts with
    | [p0; p1] =>
        (trim p0,
         if 5 <? String.length (trim p1)
         then String.substring 0 5 (trim p1) else trim p1)
    | _ => (nameWithoutExt, t "downloadModal.unknownAuthor")
    end in
  let matched :=
    map fst (filter (fun entry => keywordHit displayName nameWithoutExt entry.2 = true)
               TAG_KEYWORDS) in
  {| displayName := displayName;
     author := author;
     tags := match matched with [] => ["Other"] | _ => matched end |}.

(** [tags.some(tag => tag.toLowerCase() === selectedTag.toLowerCase())] *)
Definition hasTag {lang : Language} {text : Text} (selectedTag : string)
    (file : GithubFile) : bool :=
  existsb (fun tag => bool_decide (toLowerCase tag = toLowerCase selectedTag))
          (tags (extractCharacterInfo (file_name file))).

Definition filteredCharacters {lang : Language} {text : Text}
    (characterFiles : list GithubFile) (selectedTag : string)
  : list GithubFile :=
  if decide (selectedTag = "all") then characterFiles
  else filter (fun file => hasTag selectedTag file = true) characterFiles.

(** [tagCounts]: the entry [all] and one entry per tag of [TAGS]. *)
Definition tagCounts {lang : Language} {text : Text}
    (characterFiles : list GithubFile) : gmap string nat :=
  foldl (fun counts tag =>
           <[tag := length (filter (fun file => hasTag tag file = true)
                              characterFiles)]> counts)
        (<["all" := length characterFiles]> ∅) TAGS.

(** *** The caches in local storage *)

Definition CACHE_KEY : string := "narratium_character_files".
Definition CACHE_DURATION : Z := 5 * 60 * 1000.
Definition IMAGE_CACHE_KEY : string := "narratium_character_images".
Definition IMAGE_CACHE_DURATION : Z := 30 * 60 * 1000.

(** [JSON.stringify] and [JSON.parse] on the two cache records.  A text
    that fails to parse, or parses to something other than such a record,
    gives [None] (the source then falls into its [catch], or compares with a
    missing time stamp, and answers as if nothing were cached). *)
Class CacheCodec := {
  stringifyCache : list GithubFile * Z -> string;
  parseCache : string -> option (list GithubFile * Z);
  stringifyImages : gmap string (bool * Z) -> string;
  parseImages : string -> option (gmap string (bool * Z));
}.

Definition getCachedData {codec : CacheCodec} (nowMs : Z)
    (ls : gmap string string) : option (list GithubFile) :=
  match ls !! CACHE_KEY with
  | Some cached =>
      if truthy cached then
        match parseCache cached with
        | Some (data, timestamp) =>
            if (nowMs - timestamp <? CACHE_DURATION)%Z then Some data else None
        | None => None
        end
      else None
  | None => None
  end.

Definition setCachedData {codec : CacheCodec} (nowMs : Z)
    (data : list GithubFile) (ls : gmap string string) : gmap string string :=
  <[CACHE_KEY := stringifyCache (data, nowMs)]> ls.

(** [getImageCache]: the stored entries without those older than
    [IMAGE_CACHE_DURATION]. *)
Definition getImageCache {codec : CacheCodec} (nowMs : Z)
    (ls : gmap string string) : gmap string (bool * Z) :=
  match ls !! IMAGE_CACHE_KEY with
  | Some cached =>
      if truthy cached then
        match parseImages cached with
        | Some cache =>
            filter (fun entry =>
                      ~ (nowMs - entry.2.2 > IMAGE_CACHE_DURATION)%Z) cache
        | None => ∅
        end
      else ∅
  | None => ∅
  end.


(** *** Preloading in batches *)

(** [l.slice(i, j)] for [i <= j] *)
Definition slice {A : Type} (i j : nat) (l : list A) : list A :=
  take (j - i) (drop i l).

(** The [for] loop of [preloadImages] that cuts the list into batches;
    [fuel] bounds its iterations. *)
Fixpoint batchLoop {A : Type} (fuel : nat) (batchSize i : nat) (l : list A)
    (batches : list (list A)) : option (list (list A)) :=
  if i <? length l then
    match fuel with
    | O => None
    | S fuel' =>
        batchLoop fuel' batchSize (i + batchSize) l
          (batches ++ [slice i (i + batchSize) l])
    end
  else Some batches.

(** [imageCache[name]?.loaded] as a truth value *)
Definition cachedLoaded (imageCache : gmap string (bool * Z)) (name : string)
  : bool :=
  match imageCache !! name with
  | Some (loaded, _) => loaded
  | None => false
  end.

(** [imagesToPreload]: the files not recorded as loaded in the image cache. *)
Definition imagesToPreload (imageCache : gmap string (bool * Z))
    (files : list GithubFile) : list GithubFile :=
  filter (fun file => cachedLoaded imageCache (file_name file) = false) files.

Definition preloadBatches {codec : CacheCodec} (fuel : nat) (nowMs : Z)
    (ls : gmap string string) (files : list GithubFile)
  : option (list (list GithubFile)) :=
  batchLoop fuel 8 0 (imagesToPreload (getImageCache nowMs ls) files) [].

(** *** Sample collaborators *)

Definition sampleText : Text :=
  {| toLowerCase := fun s => s; trim := fun s => s;
     cultivationWords := ("xiuxian", "xianxia", "xiulian");
     fantasyWords := ("xuanhuan", "mofa", "qihuan");
     fanfictionWords := ("tongren", "erchuang") |}.

Definition sampleFiles : list GithubFile :=
  [ mkGithubFile "Sword fantasy--alice.png" "";
    mkGithubFile "Quiet town.png" "";
    mkGithubFile "nsfw magic--bob.png" "" ].

(** A codec that knows one text for each cache record. *)
Definition sampleCodec : CacheCodec :=
  {| stringifyCache := fun _ => "files";
     parseCache := fun s =>
       if decide (s = "files") then Some (sampleFiles, 1000%Z) else None;
     stringifyImages := fun _ => "images";
     parseImages := fun s =>
       if decide (s = "images")
       then Some (<["Quiet town.png" := (true, 1000%Z)]> ∅) else None |}.

(** *** Loading the list of characters *)

Inductive LoadingStage := fetching | preloading | complete.

Record DownloadState := mkDownloadState {
  characterFiles : list GithubFile;
  loading : bool;
  importing : option string;
  error : option string;
  selectedTag : string;
  imageLoadingStates : gmap string bool;
  preloadingImages : bool;
  loadingStage : LoadingStage;
}.

Definition showFiles (files : list GithubFile) (busy : bool)
    (stage : LoadingStage) (st : DownloadState) : DownloadState :=
  {| characterFiles := files; loading := false;
     importing := importing st; error := None;
     selectedTag := selectedTag st;
     imageLoadingStates := imageLoadingStates st;
     preloadingImages := busy; loadingStage := stage |}.

(** The part of [preloadImages] that runs before the first image is
    requested: what it leaves in [preloadingImages] and [loadingStage].
    With no file at all it returns at once and the stage stays as it is;
    with nothing left to preload it is complete at once. *)
Definition startPreload {codec : CacheCodec} (nowMs : Z)
    (ls : gmap string string) (files : list GithubFile)
    (busy : bool) (stage : LoadingStage) : bool * LoadingStage :=
  match files with
  | [] => (busy, stage)
  | _ :: _ =>
      match imagesToPreload (getImageCache nowMs ls) files with
      | [] => (false, complete)
      | _ :: _ => (true, preloading)
      end
  end.

(** [loadCharacters], run when the modal opens.  [response] is what the
    request to the repository would give: [Some data] for a list of files,
    [None] for a failed request or any other answer.  The clock is read when
    the cache is consulted ([readMs]), when the answer is cached ([storeMs])
    and when the preloading starts ([preloadMs]).  The third component tells
    whether the request was sent. *)
Definition loadCharacters {lang : Language} {codec : CacheCodec}
    (readMs storeMs preloadMs : Z)
    (response : option (list GithubFile)) (st : DownloadState)
    (ls : gmap string string) : DownloadState * gmap string string * bool :=
  match getCachedData readMs ls with
  | Some cachedData =>
      let '(busy, stage) :=
        startPreload preloadMs ls cachedData (preloadingImages st) fetching in
      (showFiles cachedData busy stage st, ls, false)
  | None =>
      match response with
      | Some data =>
          let pngFiles :=
            filter (fun item => endsWith (file_name item) ".png" = true) data in
          let ls' := setCachedData storeMs pngFiles ls in
          let '(busy, stage) :=
            startPreload preloadMs ls' pngFiles (preloadingImages st) fetching in
          (showFiles pngFiles busy stage st, ls', true)
      | None =>
          ({| characterFiles := characterFiles st; loading := false;
              importing := importing st;
              error := Some (t "downloadModal.fetchError");
              selectedTag := selectedTag st;
              imageLoadingStates := imageLoadingStates st;
              preloadingImages := preloadingImages st;
              loadingStage := complete |}, ls, true)
      end
  end.

Definition closedDownload : DownloadState :=
  {| characterFiles := []; loading := false; importing := None;
     error := None; selectedTag := "all"; imageLoadingStates := ∅;
     preloadingImages := false; loadingStage := fetching |}.

(** ** Properties of the walk *)

Section Walk.

Variable allNodes : list DialogueNode.

Lemma findNode_Some (i : string) (node : DialogueNode) :
  findNode allNodes i = Some node -> node ∈ allNodes /\ node_id node = i.
Proof.
  unfold findNode. intros H. apply find_some in H as [Hin Hb].
  apply bool_decide_eq_true in Hb. split; [by apply list_elem_of_In | done].
Qed.

Lemma findNode_None (i : string) :
  findNode allNodes i = None <-> i ∉ map node_id allNodes.
Proof.
  unfold findNode. split.
  - intros H Hin. apply list_elem_of_fmap in Hin as (n & -> & Hn).
    apply list_elem_of_In in Hn.
    pose proof (find_none _ _ H n Hn) as Hb. simpl in Hb.
    by apply bool_decide_eq_false in Hb.
  - intros Hnin. destruct (find _ allNodes) as [n|] eqn:E; [|done].
    apply find_some in E as [Hin Hb]. apply bool_decide_eq_true in Hb.
    exfalso. apply Hnin. apply list_elem_of_fmap. exists n.
    split; [done | by apply list_elem_of_In].
Qed.

Lemma findNode_id_in (i : string) (node : DialogueNode) :
  findNode allNodes i = Some node -> i ∈ map node_id allNodes.
Proof.
  intros H. apply findNode_Some in H as [Hin <-].
  apply list_elem_of_fmap. by exists node.
Qed.

(** The result does not depend on the bound once the bound is large enough. *)
Lemma walkPath_fuel_mono (fuel fuel' : nat) (i : string) (acc p : list string) :
  walkPath fuel allNodes i acc = Some p -> fuel <= fuel' ->
  walkPath fuel' allNodes i acc = Some p.
Proof.
  revert fuel' i acc. induction fuel as [|f IH]; intros fuel' i acc H Hle.
  - destruct fuel'; simpl in *; destruct (decide (i = rootId)); done.
  - destruct fuel' as [|f']; [lia|]. simpl in *.
    destruct (decide (i = rootId)); [done|].
    destruct (findNode allNodes i); [|done].
    apply IH; [done | lia].
Qed.

(** Every execution of the loop body pushes exactly one identifier. *)
Lemma walkPath_length (fuel : nat) (i : string) (acc p : list string) :
  walkPath fuel allNodes i acc = Some p ->
  length acc <= length p <= length acc + fuel.
Proof.
  revert i acc. induction fuel as [|f IH]; intros i acc H; simpl in H.
  - destruct (decide (i = rootId)); [|done]. injection H as <-. lia.
  - destruct (decide (i = rootId)); [injection H as <-; lia|].
    destruct (findNode allNodes i).
    + apply IH in H. rewrite length_app in H. simpl in H. lia.
    + injection H as <-. rewrite length_app. simpl. lia.
Qed.

Lemma walkPath_root_free (fuel : nat) (i : string) (acc p : list string) :
  walkPath fuel allNodes i acc = Some p -> rootId ∉ acc -> rootId ∉ p.
Proof.
  revert i acc. induction fuel as [|f IH]; intros i acc H Hacc; simpl in H.
  - destruct (decide (i = rootId)); [|done]. by injection H as <-.
  - destruct (decide (i = rootId)) as [|Hne]; [by injection H as <-|].
    assert (rootId ∉ acc ++ [i]) as Hpush.
    { rewrite elem_of_app, list_elem_of_singleton. intros [?|?]; [done|].
      by apply Hne. }
    destruct (findNode allNodes i).
    + by apply IH in H.
    + by injection H as <-.
Qed.

(** A failed lookup ends the walk in the very iteration that pushed the
    identifier. *)
Lemma walkPath_missing (fuel : nat) (i : string) (acc : list string) :
  i <> rootId -> findNode allNodes i = None ->
  walkPath (S fuel) allNodes i acc = Some (acc ++ [i]).
Proof.
  intros Hne Hnone. simpl. destruct (decide (i = rootId)); [done|].
  by rewrite Hnone.
Qed.

(** Termination.  [visited] are the identifiers whose lookup succeeded so far;
    without a cycle they are pairwise distinct, and [bound] is a number that
    no such list can reach. *)
Lemma walkPath_terminates (bound : nat) :
  acyclic allNodes ->
  (forall vs : list string,
      NoDup vs -> rootId ∉ vs -> vs ⊆ map node_id allNodes ->
      length vs < bound) ->
  forall (fuel : nat) (i : string) (acc visited : list string),
    NoDup visited -> rootId ∉ visited ->
    visited ⊆ map node_id allNodes ->
    (forall v, v ∈ visited -> tc (parentLink allNodes) v i) ->
    bound <= length visited + fuel ->
    is_Some (walkPath fuel allNodes i acc).
Proof.
  intros Hacyc Hbound.
  induction fuel as [|f IH]; intros i acc visited Hnd Hroot Hsub Hreach Hlen;
    simpl; destruct (decide (i = rootId)) as [|Hne]; try done.
  - specialize (Hbound visited Hnd Hroot Hsub). lia.
  - destruct (findNode allNodes i) as [node|] eqn:Hfind; [|done].
    assert (parentLink allNodes i (parent_node_id node)) as Hlink
      by (by constructor).
    apply (IH _ _ (i :: visited)).
    + constructor; [|done]. intros Hin. apply (Hacyc i). by apply Hreach.
    + rewrite elem_of_cons. intros [?|?]; [by apply Hne | done].
    + intros v. rewrite elem_of_cons. intros [->|?]; [|by apply Hsub].
      by eapply findNode_id_in.
    + intros v. rewrite elem_of_cons. intros [->|Hv].
      * by apply tc_once.
      * eapply tc_r; [by apply Hreach | done].
    + simpl. lia.
Qed.

Lemma distinct_ids_bound (vs : list string) :
  NoDup vs -> vs ⊆ map node_id allNodes -> length vs <= length allNodes.
Proof.
  intros Hnd Hsub.
  rewrite <- (length_map node_id allNodes).
  apply submseteq_length. by apply NoDup_submseteq.
Qed.

Lemma distinct_nonroot_ids_bound (vs : list string) :
  hasRoot allNodes ->
  NoDup vs -> rootId ∉ vs -> vs ⊆ map node_id allNodes ->
  length vs < length allNodes.
Proof.
  intros Hroot Hnd Hnr Hsub.
  assert (length (rootId :: vs) <= length allNodes) as H; [|simpl in H; lia].
  apply distinct_ids_bound.
  - by constructor.
  - intros v. rewrite elem_of_cons. intros [->|?]; [done | by apply Hsub].
Qed.

(** A strictly decreasing rank along the parent links rules out cycles. *)
Lemma acyclic_of_rank (rank : string -> nat) :
  (forall i node, i <> rootId -> findNode allNodes i = Some node ->
                  rank (parent_node_id node) < rank i) ->
  acyclic allNodes.
Proof.
  intros Hrank.
  assert (forall a b, tc (parentLink allNodes) a b -> rank b < rank a) as Htc.
  { induction 1 as [a b Hab | a b c Hab _ IH].
    - destruct Hab. by apply Hrank.
    - destruct Hab as [a node Hne Hf]. specialize (Hrank _ _ Hne Hf). lia. }
  intros i Hi. apply Htc in Hi. lia.
Qed.

End Walk.

(** ** The current path: the claims *)

Lemma walkPath_unfold (fuel : nat) (allNodes : list DialogueNode)
    (i : string) (acc : list string) :
  i <> rootId ->
  walkPath (S fuel) allNodes i acc =
    match findNode allNodes i with
    | None => Some (acc ++ [i])
    | Some node => walkPath fuel allNodes (parent_node_id node) (acc ++ [i])
    end.
Proof. intros Hne. simpl. by destruct (decide (i = rootId)). Qed.

Lemma walkPath_stuck (allNodes : list DialogueNode) (i : string)
    (acc : list string) :
  i <> rootId -> walkPath 0 allNodes i acc = None.
Proof. intros Hne. simpl. by destruct (decide (i = rootId)). Qed.

(** The first identifier pushed is the one the walk starts from. *)
Lemma walkPath_start_in (fuel : nat) (allNodes : list DialogueNode)
    (i : string) (acc p : list string) :
  i <> rootId -> walkPath fuel allNodes i acc = Some p -> i ∈ p.
Proof.
  intros Hne H. destruct fuel as [|f].
  - by rewrite walkPath_stuck in H.
  - rewrite walkPath_unfold in H by done.
    assert (forall g j a q, walkPath g allNodes j a = Some q ->
                            forall x, x ∈ a -> x ∈ q) as Hkeep.
    { induction g as [|g IH]; intros j a q Hq x Hx; simpl in Hq;
        destruct (decide (j = rootId)); simplify_eq; try done.
      destruct (findNode allNodes j).
      - eapply IH; [done|]. rewrite elem_of_app. by left.
      - simplify_eq. rewrite elem_of_app. by left. }
    destruct (findNode allNodes i).
    + eapply Hkeep; [done|]. rewrite elem_of_app, list_elem_of_singleton. by right.
    + simplify_eq. rewrite elem_of_app, list_elem_of_singleton. by right.
Qed.

Lemma computeCurrentPath_at_root (fuel : nat) (allNodes : list DialogueNode) :
  computeCurrentPath fuel allNodes rootId = Some [].
Proof. by destruct fuel. Qed.

(** C1 (as amended): when the parent links form no cycle, the walk from
    [current_node_id] ends within [|nodes| + 1] executions of the loop body,
    and within [|nodes|] when a node with the identifier "root" is present;
    the path has at most that many entries and never holds "root"; a larger
    bound gives the same path; and a lookup that finds no node ends the walk
    in that very iteration. *)
Theorem computeCurrentPath_terminates (allNodes : list DialogueNode)
    (currentNodeId : string) :
  acyclic allNodes ->
  exists path,
    computeCurrentPath (S (length allNodes)) allNodes currentNodeId = Some path
    /\ length path <= S (length allNodes)
    /\ (rootId ∉ path)
    /\ (hasRoot allNodes ->
        computeCurrentPath (length allNodes) allNodes currentNodeId = Some path
        /\ length path <= length allNodes)
    /\ (forall fuel, S (length allNodes) <= fuel ->
        computeCurrentPath fuel allNodes currentNodeId = Some path)
    /\ (forall fuel i acc, i <> rootId -> findNode allNodes i = None ->
        walkPath (S fuel) allNodes i acc = Some (acc ++ [i])).
Proof.
  intros Hacyc. unfold computeCurrentPath.
  destruct (walkPath_terminates allNodes (S (length allNodes)) Hacyc)
    with (fuel := S (length allNodes)) (i := currentNodeId)
         (acc := @nil string) (visited := @nil string) as [path Hpath].
  - intros vs Hnd _ Hsub. pose proof (distinct_ids_bound _ _ Hnd Hsub). lia.
  - constructor.
  - apply not_elem_of_nil.
  - intros v Hv. by apply elem_of_nil in Hv.
  - intros v Hv. by apply elem_of_nil in Hv.
  - simpl. lia.
  - exists path. split; [done|]. split.
    { apply walkPath_length in Hpath. simpl in Hpath. lia. }
    split.
    { eapply walkPath_root_free; [done | apply not_elem_of_nil]. }
    split.
    { intros Hroot.
      destruct (walkPath_terminates allNodes (length allNodes) Hacyc)
        with (fuel := length allNodes) (i := currentNodeId)
             (acc := @nil string) (visited := @nil string) as [q Hq].
      - intros vs Hnd Hnr Hsub. by apply distinct_nonroot_ids_bound.
      - constructor.
      - apply not_elem_of_nil.
      - intros v Hv. by apply elem_of_nil in Hv.
      - intros v Hv. by apply elem_of_nil in Hv.
      - simpl. lia.
      - pose proof (walkPath_fuel_mono _ _ (S (length allNodes)) _ _ _ Hq) as Hm.
        rewrite Hpath in Hm. assert (Some path = Some q) as Heq by (apply Hm; lia).
        simplify_eq. split; [done|].
        apply walkPath_length in Hq. simpl in Hq. lia. }
    split.
    { intros fuel Hle. by eapply walkPath_fuel_mono. }
    intros fuel i acc. apply walkPath_missing.
Qed.

Lemma chainNodes_acyclic : acyclic chainNodes.
Proof.
  apply (acyclic_of_rank _
    (fun s => if decide (s = "B") then 2 else if decide (s = "A") then 1 else 0)).
  intros i node Hne Hfind. unfold findNode, chainNodes, plainNode in Hfind.
  simpl in Hfind.
  destruct (decide ("root" = i)) as [<-|Hr]; [done|].
  rewrite bool_decide_eq_false_2 in Hfind by done.
  destruct (decide ("A" = i)) as [<-|Ha].
  { rewrite bool_decide_eq_true_2 in Hfind by done.
    injection Hfind as <-. vm_compute. lia. }
  rewrite bool_decide_eq_false_2 in Hfind by done.
  destruct (decide ("B" = i)) as [<-|Hb].
  { rewrite bool_decide_eq_true_2 in Hfind by done.
    injection Hfind as <-. vm_compute. lia. }
  by rewrite bool_decide_eq_false_2 in Hfind by done.
Qed.

Lemma computeCurrentPath_terminates_witness :
  exists path,
    computeCurrentPath (S (length chainNodes)) chainNodes "B" = Some path
    /\ length path <= S (length chainNodes)
    /\ (rootId ∉ path)
    /\ (hasRoot chainNodes ->
        computeCurrentPath (length chainNodes) chainNodes "B" = Some path
        /\ length path <= length chainNodes)
    /\ (forall fuel, S (length chainNodes) <= fuel ->
        computeCurrentPath fuel chainNodes "B" = Some path)
    /\ (forall fuel i acc, i <> rootId -> findNode chainNodes i = None ->
        walkPath (S fuel) chainNodes i acc = Some (acc ++ [i])).
Proof.
  apply (computeCurrentPath_terminates chainNodes "B"). exact chainNodes_acyclic.
Defined.

(** C1 as stated fails on trees that the walk accepts: on a cycle of parent
    links the loop never ends, and in a list without a "root" node a dangling
    parent makes the walk longer than the list. *)
Lemma computeCurrentPath_unbounded :
  (forall fuel, computeCurrentPath fuel cyclicNodes "A" = None)
  /\ computeCurrentPath (length rootlessNodes) rootlessNodes "A" = None
  /\ computeCurrentPath (S (length rootlessNodes)) rootlessNodes "A"
     = Some ["A"; "X"].
Proof.
  split; [|split; reflexivity].
  assert (forall fuel acc,
             walkPath fuel cyclicNodes "A" acc = None
             /\ walkPath fuel cyclicNodes "B" acc = None) as H.
  { induction fuel as [|f IH]; intros acc.
    - split; by apply walkPath_stuck.
    - split; rewrite walkPath_unfold by done.
      + change (findNode cyclicNodes "A") with (Some (plainNode "A" "B")).
        apply IH.
      + change (findNode cyclicNodes "B") with (Some (plainNode "B" "A")).
        apply IH. }
  intros fuel. apply H.
Qed.

Lemma walkPath_not_found_start (fuel : nat) (allNodes : list DialogueNode)
    (i : string) :
  i <> rootId -> i ∉ map node_id allNodes ->
  walkPath (S fuel) allNodes i [] = Some [i].
Proof.
  intros Hne Hnin. rewrite walkPath_unfold by done.
  by rewrite (proj2 (findNode_None allNodes i) Hnin).
Qed.

(** ** Grid shape *)

(** [roundSqrt n] is the integer nearest to the square root of [n]:
    [(2k - 1)^2 < 4n < (2k + 1)^2], written without subtraction. *)
Lemma roundSqrt_nearest (n : nat) :
  0 < n ->
  let k := roundSqrt n in
  (2 * k) * (2 * k) + 1 < 4 * n + 4 * k
  /\ 4 * n < (2 * k + 1) * (2 * k + 1).
Proof.
  intros Hn. unfold roundSqrt. pose proof (Nat.sqrt_specif n) as [Hlo Hhi].
  destruct (Nat.leb_spec (n - Nat.sqrt n * Nat.sqrt n) (Nat.sqrt n)); simpl; nia.
Qed.

Lemma calculateOptimalLayout_pos (n : nat) : 1 <= calculateOptimalLayout n.
Proof. unfold calculateOptimalLayout. destruct (n <=? 3); lia. Qed.

Lemma ceilDiv_bounds (a b : nat) :
  0 < b -> a <= b * ceilDiv a b /\ b * ceilDiv a b < a + b.
Proof.
  intros Hb. unfold ceilDiv.
  pose proof (Nat.div_mod_eq (a + (b - 1)) b) as Hdm.
  pose proof (Nat.mod_upper_bound (a + (b - 1)) b) as Hlt.
  lia.
Qed.

Lemma gridCell_inj (columns i j : nat) :
  gridCell columns i = gridCell columns j -> i = j.
Proof.
  unfold gridCell. intros Heq. injection Heq as Hm Hd.
  rewrite (Nat.div_mod_eq i columns), (Nat.div_mod_eq j columns). congruence.
Qed.

Lemma gridCell_in_grid (n i : nat) :
  i < n ->
  (gridCell (calculateOptimalLayout n) i).1 < calculateOptimalLayout n
  /\ (gridCell (calculateOptimalLayout n) i).2 < rowsOf n.
Proof.
  intros Hi. pose proof (calculateOptimalLayout_pos n) as Hc. simpl. split.
  - apply Nat.mod_upper_bound. lia.
  - apply Nat.Div0.div_lt_upper_bound.
    pose proof (ceilDiv_bounds n _ Hc) as [Hle _]. unfold rowsOf. lia.
Qed.

Lemma buildNodes_lookup {lang : Language} {markup : InputMarkup} (c : string)
    (allNodes : list DialogueNode) (path : list string) (i : nat)
    (fn : FlowNode) :
  buildNodes c allNodes path !! i = Some fn ->
  exists node, allNodes !! i = Some node
    /\ fn = buildNode c allNodes path
              (calculateOptimalLayout (length allNodes)) i node.
Proof.
  unfold buildNodes. rewrite list_lookup_imap.
  destruct (allNodes !! i) as [node|]; simpl; [|done].
  intros Heq. exists node. split; [done | congruence].
Qed.

(** C5: the number of columns is 1 up to three nodes and the rounded square
    root (at least 1) beyond; the number of rows is the quotient rounded up;
    the grid has room for every node; and the nodes, placed by position in
    the list at (index mod columns, index div columns), lie inside the grid
    and no two of them share a cell. *)
Theorem grid_layout {lang : Language} {markup : InputMarkup} (c : string)
    (allNodes : list DialogueNode) (path : list string) :
  let n := length allNodes in
  let columns := calculateOptimalLayout n in
  let rows := rowsOf n in
  (n <= 3 -> columns = 1)
  /\ (3 < n ->
      columns = Nat.max 1 (roundSqrt n)
      /\ (2 * columns) * (2 * columns) + 1 < 4 * n + 4 * columns
      /\ 4 * n < (2 * columns + 1) * (2 * columns + 1))
  /\ 1 <= columns
  /\ (n <= columns * rows /\ columns * rows < n + columns)
  /\ length (buildNodes c allNodes path) = n
  /\ (forall i fn, buildNodes c allNodes path !! i = Some fn ->
        cell fn = (i mod columns, i / columns)
        /\ (cell fn).1 < columns /\ (cell fn).2 < rows)
  /\ (forall i j fi fj,
        buildNodes c allNodes path !! i = Some fi ->
        buildNodes c allNodes path !! j = Some fj ->
        cell fi = cell fj -> i = j).
Proof.
  intros n columns rows.
  pose proof (calculateOptimalLayout_pos n) as Hpos.
  split.
  { intros Hn. subst columns. unfold calculateOptimalLayout.
    by destruct (Nat.leb_spec n 3); [|lia]. }
  split.
  { intros Hn.
    assert (columns = Nat.max 1 (roundSqrt n)) as Hc.
    { subst columns. unfold calculateOptimalLayout.
      by destruct (Nat.leb_spec n 3); [lia|]. }
    split; [done|].
    pose proof (roundSqrt_nearest n ltac:(lia)) as Hk. simpl in Hk.
    assert (1 <= roundSqrt n) as Hk1.
    { destruct (roundSqrt n); [simpl in Hk; lia | lia]. }
    rewrite Hc, Nat.max_r by done. exact Hk. }
  split; [done|].
  split.
  { apply (ceilDiv_bounds n columns Hpos). }
  split.
  { unfold buildNodes. by rewrite length_imap. }
  split.
  { intros i fn Hfn.
    assert (i < n) as Hi.
    { apply lookup_lt_Some in Hfn. unfold buildNodes in Hfn.
      by rewrite length_imap in Hfn. }
    apply buildNodes_lookup in Hfn as (node & _ & ->). simpl.
    split; [done|]. apply (gridCell_in_grid n i Hi). }
  intros i j fi fj Hi Hj Hcell.
  apply buildNodes_lookup in Hi as (ni & _ & ->).
  apply buildNodes_lookup in Hj as (nj & _ & ->).
  simpl in Hcell. by eapply gridCell_inj.
Qed.

Lemma grid_layout_witness :
  calculateOptimalLayout (length tenNodes)
  = Nat.max 1 (roundSqrt (length tenNodes))
  /\ calculateOptimalLayout (length tenNodes) = 3
  /\ rowsOf (length tenNodes) = 4.
Proof.
  pose proof (grid_layout (lang := sampleLanguage) (markup := sampleMarkup)
                "c" tenNodes []) as (_ & Hlarge & _).
  split; [|split; reflexivity].
  apply Hlarge. simpl. lia.
Defined.

(** ** Labels *)

Lemma truthy_true (s : string) : truthy s = true <-> s <> "".
Proof.
  unfold truthy. rewrite negb_true_iff, bool_decide_eq_false. done.
Qed.

Lemma truthy_false (s : string) : truthy s = false <-> s = "".
Proof.
  unfold truthy. rewrite negb_false_iff, bool_decide_eq_true. done.
Qed.

Lemma substring_prefix (n : nat) (s : string) :
  String.prefix (String.substring 0 n s) s = true.
Proof.
  revert s. induction n as [|n IH]; intros [|a s]; simpl; try done.
  destruct (Ascii.ascii_dec a a); [apply IH | done].
Qed.

Lemma substring_length (n : nat) (s : string) :
  n <= String.length s -> String.length (String.substring 0 n s) = n.
Proof.
  revert s. induction n as [|n IH]; intros [|a s]; simpl; try done; try lia.
  intros Hle. f_equal. apply IH. lia.
Qed.



(** Ten nodes, two direct children of root: the older one is labelled 2/2
    and the more recent one 1/2. *)
Example tenNodes_labels :
  map (fun fn => (flow_id fn, label (data fn)))
      (filter (fun fn => flow_id fn = "s1" \/ flow_id fn = "s2")
         (buildNodes (lang := sampleLanguage) (markup := sampleMarkup)
            "c" tenNodes ["b4"; "b3"; "b2"; "b1"; "s2"]))
  = [("s1", "Starting Point 2/2"); ("s2", "Starting Point 1/2")].
Proof. vm_compute. reflexivity. Qed.



(** ** Edges *)

Lemma nodeMapOf_own (allNodes : list DialogueNode) (k : string) :
  is_Some (ownNodes (nodeMapOf allNodes) !! k)
  <-> k ∈ map node_id allNodes /\ k <> "__proto__".
Proof.
  unfold nodeMapOf.
  assert (forall l (m : NodeMap),
             is_Some (ownNodes (foldl assignNode m l) !! k)
             <-> is_Some (ownNodes m !! k)
                 \/ (k ∈ map node_id l /\ k <> "__proto__")) as Hgen.
  { induction l as [|n l IH]; intros m; simpl.
    - rewrite elem_of_nil. tauto.
    - rewrite IH, elem_of_cons. unfold assignNode.
      destruct (decide (node_id n = "__proto__")) as [Hp|Hp]; simpl.
      + intuition congruence.
      + rewrite lookup_insert_is_Some.
        destruct (decide (node_id n = k)) as [Heq|Hne]; intuition congruence. }
  rewrite Hgen. simpl. rewrite lookup_empty. split; [|by right].
  intros [Hs|?]; [|done]. by destruct Hs.
Qed.

Lemma nodeMapOf_proto (allNodes : list DialogueNode) (node : DialogueNode) :
  protoNode (nodeMapOf allNodes) = Some node ->
  node ∈ allNodes /\ node_id node = "__proto__".
Proof.
  unfold nodeMapOf.
  assert (forall l (m : NodeMap),
             protoNode (foldl assignNode m l) = Some node ->
             protoNode m = Some node
             \/ (node ∈ l /\ node_id node = "__proto__")) as Hgen.
  { induction l as [|n l IH]; intros m; simpl; [by left|].
    intros H. apply IH in H as [H|[H1 H2]].
    - unfold assignNode in H.
      destruct (decide (node_id n = "__proto__")) as [Hp|Hp]; simpl in H.
      + injection H as <-. right. split; [apply elem_of_cons; by left|done].
      + by left.
    - right. split; [apply elem_of_cons; by right|done]. }
  intros H. apply Hgen in H as [H|H]; [done|exact H].
Qed.

(** Every node identifier is a truthy key of the node map. *)
Lemma nodeMapTruthy_id (allNodes : list DialogueNode) (k : string) :
  k ∈ map node_id allNodes -> nodeMapTruthy (nodeMapOf allNodes) k = true.
Proof.
  intros Hk. unfold nodeMapTruthy.
  destruct (decide (k = "__proto__")) as [->|Hne].
  - rewrite (bool_decide_eq_true_2 ("__proto__" ∈ objectPrototypeKeys)).
    + by rewrite orb_true_r.
    + apply list_elem_of_In. simpl. tauto.
  - rewrite (bool_decide_eq_true_2
               (is_Some (ownNodes (nodeMapOf allNodes) !! k))); [done|].
    by apply nodeMapOf_own.
Qed.

(** A truthy key of the node map is a node identifier, a name inherited from
    the object prototype, or a truthy field of a node stored under
    "__proto__". *)
Lemma nodeMapTruthy_inv (allNodes : list DialogueNode) (k : string) :
  nodeMapTruthy (nodeMapOf allNodes) k = true ->
  k ∈ map node_id allNodes
  \/ k ∈ objectPrototypeKeys
  \/ exists node, node ∈ allNodes /\ node_id node = "__proto__"
                  /\ fieldTruthy node k = true.
Proof.
  unfold nodeMapTruthy. intros H.
  apply orb_true_iff in H as [H|H]; [apply orb_true_iff in H as [H|H]|].
  - left. apply bool_decide_eq_true in H. by apply nodeMapOf_own in H as [? _].
  - right. left. by apply bool_decide_eq_true in H.
  - right. right. destruct (protoNode (nodeMapOf allNodes)) as [node|] eqn:Hp;
      [|done].
    apply nodeMapOf_proto in Hp as [? ?]. by exists node.
Qed.

Lemma includes_true (l : list string) (x : string) :
  includes l x = true <-> x ∈ l.
Proof. unfold includes. apply bool_decide_eq_true. Qed.

(** What an emitted edge tells about the node it was built from. *)
Lemma buildEdge_Some {markup : InputMarkup} (allNodes : list DialogueNode)
    (path : list string) (node : DialogueNode) (e : Edge) :
  buildEdge (nodeMapOf allNodes) path node = Some e ->
  node_id node <> "" /\ node_id node <> rootId
  /\ source e = parent_node_id node /\ target e = node_id node
  /\ nodeMapTruthy (nodeMapOf allNodes) (parent_node_id node) = true
  /\ nodeMapTruthy (nodeMapOf allNodes) (node_id node) = true
  /\ className e =
       (if bool_decide (parent_node_id node = rootId) then "root-source"
        else if includes path (parent_node_id node)
                && includes path (node_id node)
             then "current-path" else "other-path").
Proof.
  unfold buildEdge. intros Hb.
  destruct (truthy (node_id node)) eqn:Ht; simpl in Hb; [|done].
  destruct (bool_decide (node_id node = rootId)) eqn:Hr; simpl in Hb; [done|].
  destruct (nodeMapTruthy (nodeMapOf allNodes) (parent_node_id node))
    eqn:Hs; simpl in Hb; [|done].
  destruct (nodeMapTruthy (nodeMapOf allNodes) (node_id node))
    eqn:Hg; simpl in Hb; [|done].
  apply truthy_true in Ht. apply bool_decide_eq_false in Hr.
  injection Hb as <-. simpl. done.
Qed.

Lemma buildEdges_elem {markup : InputMarkup} (allNodes : list DialogueNode)
    (path : list string) (e : Edge) :
  e ∈ buildEdges allNodes path <->
  exists node, node ∈ allNodes
               /\ buildEdge (nodeMapOf allNodes) path node = Some e.
Proof. unfold buildEdges. apply list_elem_of_omap. Qed.

(** C2: an emitted edge has the class "current-path" exactly when its source
    and its target both belong to the computed path extended by the current
    node identifier. *)
Theorem current_path_edge_iff {lang : Language} {markup : InputMarkup} (fuel : nat)
    (c : string) (tree : TreeView) (newNodes : list FlowNode)
    (newEdges : list Edge) :
  layoutGraph fuel c tree = Some (newNodes, newEdges) ->
  exists path,
    computeCurrentPath fuel (view_nodes tree) (effectiveCurrent tree) = Some path
    /\ forall e, e ∈ newEdges ->
         (className e = "current-path" <->
          source e ∈ path ++ [effectiveCurrent tree]
          /\ target e ∈ path ++ [effectiveCurrent tree]).
Proof.
  unfold layoutGraph. intros Hlay.
  destruct (computeCurrentPath fuel (view_nodes tree) (effectiveCurrent tree))
    as [path|] eqn:Hpath; simpl in Hlay; [|done].
  injection Hlay as <- <-. exists path. split; [done|].
  intros e He. apply buildEdges_elem in He as (node & _ & Hb).
  apply buildEdge_Some in Hb as (_ & Hnr & -> & -> & _ & _ & ->).
  assert (rootId ∉ path) as Hfree.
  { eapply walkPath_root_free; [exact Hpath | apply not_elem_of_nil]. }
  assert (forall x, x <> rootId ->
                    (x ∈ path ++ [effectiveCurrent tree] <-> x ∈ path)) as Hmem.
  { intros x Hx. rewrite elem_of_app, list_elem_of_singleton.
    split; [|by left]. intros [?| ->]; [done|].
    by eapply walkPath_start_in. }
  rewrite (Hmem (node_id node)) by done.
  case_bool_decide as Hsrc.
  - split; [done|]. intros [Hs Ht]. exfalso.
    rewrite Hsrc, elem_of_app, list_elem_of_singleton in Hs.
    destruct Hs as [?|Hcur]; [done|].
    rewrite <- Hcur in Hpath. unfold rootId in Hpath at 1.
    rewrite computeCurrentPath_at_root in Hpath. simplify_eq.
    by apply elem_of_nil in Ht.
  - rewrite (Hmem (parent_node_id node)) by done.
    rewrite <- !includes_true.
    destruct (includes path (parent_node_id node)),
             (includes path (node_id node)); simpl;
      (split; [intros ? | intros [? ?]]); done.
Qed.

(** C3 (as amended): for root, A below root, B below A and B current, the
    path is [B, A]; the edge A→B has the class "current-path"; the edge
    root→A has the class "root-source" and not "current-path", since "root"
    is never on the path; both are drawn with the wide stroke. *)
Theorem chain_scenario {lang : Language} {markup : InputMarkup} (c : string) :
  computeCurrentPath (length chainNodes) chainNodes "B" = Some ["B"; "A"]
  /\ exists newNodes newEdges,
       layoutGraph (length chainNodes) c chainTree = Some (newNodes, newEdges)
       /\ map flow_id newNodes = ["root"; "A"; "B"]
       /\ map (fun fn => isCurrentPath (data fn)) newNodes = [false; true; true]
       /\ map edgeSummary newEdges
          = [ ("root", "A", "root-source", 3); ("A", "B", "current-path", 3) ].
Proof.
  split; [reflexivity|].
  eexists _, _. split; [reflexivity|].
  split; [reflexivity|]. split; [reflexivity|].
  vm_compute. reflexivity.
Qed.

(** C3 as stated calls the edge root→A a current-path edge; no emitted edge
    from "root" to "A" carries that class. *)
Lemma chain_root_edge_not_current :
  ~ exists e,
      e ∈ buildEdges (markup := sampleMarkup) chainNodes ["B"; "A"]
      /\ source e = "root" /\ target e = "A"
      /\ className e = "current-path".
Proof.
  intros (e & He & Hs & Ht & Hc).
  apply buildEdges_elem in He as (node & _ & Hb).
  apply buildEdge_Some in Hb as (_ & _ & Hsrc & _ & _ & _ & Hclass).
  rewrite <- Hsrc, Hs in Hclass. rewrite Hclass in Hc.
  vm_compute in Hc. discriminate.
Qed.

(** What the test [nodeMap[sourceId] && nodeMap[targetId]] establishes.  An
    emitted edge belongs to a node of the list whose identifier is not "root"
    and whose parent identifier is the identifier of a node, a name that
    every object inherits, or a filled field of a node stored under
    "__proto__".  A node whose parent identifier is none of these yields no
    edge; a node of the list with a non-empty, non-root identifier whose
    parent is in the list yields its edge; and a list holding the root node
    alone yields that one node and no edge. *)
Lemma buildEdges_existence_test {lang : Language} {markup : InputMarkup}
    (allNodes : list DialogueNode) (path : list string) :
  (forall e, e ∈ buildEdges allNodes path ->
     exists node,
       node ∈ allNodes
       /\ node_id node <> rootId
       /\ source e = parent_node_id node /\ target e = node_id node
       /\ (parent_node_id node ∈ map node_id allNodes
           \/ parent_node_id node ∈ objectPrototypeKeys
           \/ exists proto, proto ∈ allNodes /\ node_id proto = "__proto__"
                /\ fieldTruthy proto (parent_node_id node) = true))
  /\ (forall node, parent_node_id node ∉ map node_id allNodes ->
        parent_node_id node ∉ objectPrototypeKeys ->
        "__proto__" ∉ map node_id allNodes ->
        buildEdge (nodeMapOf allNodes) path node = None)
  /\ (forall node, node ∈ allNodes ->
        node_id node <> "" -> node_id node <> rootId ->
        parent_node_id node ∈ map node_id allNodes ->
        exists e, buildEdge (nodeMapOf allNodes) path node = Some e
                  /\ e ∈ buildEdges allNodes path)
  /\ (forall fuel c r cur,
        node_id r = rootId ->
        exists fn,
          layoutGraph (S fuel) c {| view_nodes := [r]; currentNodeId := cur |}
          = Some ([fn], [])
          /\ flow_id fn = rootId).
Proof.
  split; [|split; [|split]].
  - intros e He. apply buildEdges_elem in He as (node & Hin & Hb).
    apply buildEdge_Some in Hb as (_ & Hnr & Hs & Ht & Hp & _ & _).
    apply nodeMapTruthy_inv in Hp. by exists node.
  - intros node Hmiss Hown Hproto.
    destruct (buildEdge (nodeMapOf allNodes) path node) as [e|] eqn:Hb; [|done].
    apply buildEdge_Some in Hb as (_ & _ & _ & _ & Hp & _).
    apply nodeMapTruthy_inv in Hp as [?|[?|(proto & Hin & Hid & _)]];
      [done|done|].
    exfalso. apply Hproto. apply list_elem_of_fmap. by exists proto.
  - intros node Hin Hne Hnr Hp.
    assert (node_id node ∈ map node_id allNodes) as Hself.
    { apply list_elem_of_fmap. by exists node. }
    assert (is_Some (buildEdge (nodeMapOf allNodes) path node)) as [e He].
    { unfold buildEdge.
      rewrite (proj2 (truthy_true _) Hne).
      rewrite (bool_decide_eq_false_2 _ Hnr). simpl.
      rewrite (nodeMapTruthy_id _ _ Hp), (nodeMapTruthy_id _ _ Hself).
      simpl. done. }
    exists e. split; [done|]. apply buildEdges_elem. by exists node.
  - intros fuel c r cur Hr. unfold layoutGraph. simpl view_nodes.
    set (tree := {| view_nodes := [r]; currentNodeId := cur |}).
    assert (exists p, computeCurrentPath (S fuel) [r] (effectiveCurrent tree)
                      = Some p) as [p Hp].
    { destruct (decide (effectiveCurrent tree = rootId)) as [->|Hne].
      - exists []. apply computeCurrentPath_at_root.
      - exists [effectiveCurrent tree].
        apply walkPath_not_found_start; [done|].
        simpl. rewrite Hr, list_elem_of_singleton. done. }
    rewrite Hp. simpl.
    exists (buildNode c [r] p (calculateOptimalLayout 1) 0 r).
    split; [|exact Hr].
    do 2 f_equal. unfold buildEdges. simpl. unfold buildEdge.
    rewrite (bool_decide_eq_true_2 _ Hr). simpl.
    by rewrite andb_false_r.
Qed.

(** C9: the code at the input that breaks the claim.  [nodeMap] is a plain
    object, so [nodeMap["constructor"]] is the inherited constructor and
    passes the test meant to find the parent.  For the root and a node "A"
    whose parent identifier is "constructor", which no node carries, the
    dangling reference is not skipped: the layout emits the edge from
    "constructor" to "A". *)
Theorem inherited_name_taken_for_parent {lang : Language}
    {markup : InputMarkup} (c : string) :
  ("constructor" ∉ map node_id constructorNodes)
  /\ nodeMapTruthy (nodeMapOf constructorNodes) "constructor" = true
  /\ map edgeSummary (buildEdges constructorNodes [])
     = [ ("constructor", "A", "other-path", 2) ]
  /\ exists newNodes newEdges,
       layoutGraph 1 c constructorTree = Some (newNodes, newEdges)
       /\ map flow_id newNodes = ["root"; "A"]
       /\ map edgeSummary newEdges = [ ("constructor", "A", "other-path", 2) ].
Proof.
  split.
  { unfold constructorNodes, plainNode. simpl.
    rewrite !elem_of_cons, elem_of_nil. intros [?|[?|?]]; done. }
  split; [vm_compute; reflexivity|].
  split; [vm_compute; reflexivity|].
  eexists _, _. split; [reflexivity|].
  split; [reflexivity|]. vm_compute. reflexivity.
Qed.

(** ** A current identifier that no node carries *)

(** An absent or empty current identifier is replaced by "root", and the
    path is empty. *)
Lemma empty_current_defaults_to_root (fuel : nat) (tree : TreeView) :
  currentNodeId tree = None \/ currentNodeId tree = Some "" ->
  effectiveCurrent tree = rootId
  /\ computeCurrentPath fuel (view_nodes tree) (effectiveCurrent tree)
     = Some [].
Proof.
  intros Hcur.
  assert (effectiveCurrent tree = rootId) as Heff.
  { unfold effectiveCurrent. by destruct Hcur as [-> | ->]. }
  split; [exact Heff|]. rewrite Heff. apply computeCurrentPath_at_root.
Qed.

(** C10 as stated fails in two ways.  The empty identifier is neither "root"
    nor the identifier of a node of the chain, yet with it current the path
    is empty and not [""], because "root" is walked in its place.  And with
    the dangling identifier "Z" current the path is ["Z"], but no node is
    marked and no edge has the class "current-path": nothing is highlighted
    as the current path. *)
Lemma dangling_current_not_highlighted :
  (currentNodeId emptyCurrentTree = Some ""
   /\ "" <> rootId
   /\ ("" ∉ map node_id (view_nodes emptyCurrentTree))
   /\ computeCurrentPath 1 (view_nodes emptyCurrentTree)
        (effectiveCurrent emptyCurrentTree) = Some []
   /\ computeCurrentPath 1 (view_nodes emptyCurrentTree)
        (effectiveCurrent emptyCurrentTree) <> Some [""])
  /\ (computeCurrentPath 1 (view_nodes danglingTree)
        (effectiveCurrent danglingTree) = Some ["Z"]
      /\ exists newNodes newEdges,
           layoutGraph (lang := sampleLanguage) (markup := sampleMarkup)
             1 "c" danglingTree = Some (newNodes, newEdges)
           /\ map (fun fn => isCurrentPath (data fn)) newNodes
              = [false; false; false]
           /\ map edgeSummary newEdges
              = [ ("root", "A", "root-source", 3);
                  ("A", "B", "other-path", 2) ]).
Proof.
  split.
  - split; [reflexivity|]. split; [done|]. split.
    { unfold emptyCurrentTree, chainNodes, plainNode. simpl.
      rewrite !elem_of_cons, elem_of_nil. intros [?|[?|[?|?]]]; done. }
    split; [reflexivity|]. vm_compute. discriminate.
  - split; [reflexivity|].
    eexists _, _. split; [reflexivity|].
    split; [reflexivity|]. vm_compute. reflexivity.
Qed.

(** C10 (as amended): for every tree whose current identifier is not empty,
    is not "root" and is not carried by any node, the walk starts from that
    identifier, pushes it before the lookup, does not find it and stops: the
    path is exactly that one identifier.  The identifier is on the path, but
    as no node carries it, no node is marked as being on the current path
    and no edge has the class "current-path". *)
Theorem dangling_current_path {lang : Language} {markup : InputMarkup}
    (fuel : nat) (c : string) (tree : TreeView) (cur : string) :
  currentNodeId tree = Some cur ->
  cur <> "" -> cur <> rootId ->
  cur ∉ map node_id (view_nodes tree) ->
  computeCurrentPath (S fuel) (view_nodes tree) (effectiveCurrent tree)
  = Some [cur]
  /\ exists newNodes newEdges,
       layoutGraph (S fuel) c tree = Some (newNodes, newEdges)
       /\ (forall fn, fn ∈ newNodes -> isCurrentPath (data fn) = false)
       /\ (forall e, e ∈ newEdges -> className e <> "current-path").
Proof.
  intros Hcur Hne Hnr Hnin.
  assert (effectiveCurrent tree = cur) as Heff.
  { unfold effectiveCurrent. rewrite Hcur.
    by rewrite (proj2 (truthy_true cur) Hne). }
  assert (computeCurrentPath (S fuel) (view_nodes tree) (effectiveCurrent tree)
          = Some [cur]) as Hpath.
  { rewrite Heff. unfold computeCurrentPath.
    by apply walkPath_not_found_start. }
  split; [exact Hpath|].
  exists (buildNodes c (view_nodes tree) [cur]),
         (buildEdges (view_nodes tree) [cur]).
  split; [unfold layoutGraph; by rewrite Hpath|].
  split.
  - intros fn Hin. apply list_elem_of_lookup in Hin as [k Hk].
    apply buildNodes_lookup in Hk as (node & Hn & ->). simpl.
    unfold includes. apply bool_decide_eq_false.
    rewrite list_elem_of_singleton. intros Heq. apply Hnin.
    rewrite <- Heq. apply list_elem_of_fmap. exists node.
    split; [done|]. by eapply list_elem_of_lookup_2.
  - intros e He Hc. apply buildEdges_elem in He as (node & Hin & Hb).
    apply buildEdge_Some in Hb as (_ & _ & _ & _ & _ & _ & Hclass).
    rewrite Hclass in Hc.
    destruct (bool_decide (parent_node_id node = rootId)); [discriminate|].
    destruct (includes [cur] (parent_node_id node)); simpl in Hc;
      [|discriminate].
    destruct (includes [cur] (node_id node)) eqn:Hi; [|discriminate].
    apply includes_true, list_elem_of_singleton in Hi. apply Hnin.
    rewrite <- Hi. apply list_elem_of_fmap. by exists node.
Qed.

Lemma dangling_current_path_witness :
  computeCurrentPath 1 (view_nodes danglingTree) (effectiveCurrent danglingTree)
  = Some ["Z"]
  /\ exists newNodes newEdges,
       layoutGraph (lang := sampleLanguage) (markup := sampleMarkup)
         1 "c" danglingTree = Some (newNodes, newEdges)
       /\ (forall fn, fn ∈ newNodes -> isCurrentPath (data fn) = false)
       /\ (forall e, e ∈ newEdges -> className e <> "current-path").
Proof.
  apply (dangling_current_path (lang := sampleLanguage)
           (markup := sampleMarkup) 0 "c" danglingTree "Z").
  - reflexivity.
  - done.
  - done.
  - unfold danglingTree, chainNodes, plainNode. simpl.
    rewrite !elem_of_cons, elem_of_nil. intros [?|[?|[?|?]]]; done.
Defined.

Lemma current_path_edge_iff_witness :
  exists path,
    computeCurrentPath 3 chainNodes "B" = Some path
    /\ forall e,
         e ∈ buildEdges (markup := sampleMarkup) chainNodes ["B"; "A"] ->
         (className e = "current-path" <->
          source e ∈ path ++ ["B"] /\ target e ∈ path ++ ["B"]).
Proof.
  exact (current_path_edge_iff (lang := sampleLanguage) (markup := sampleMarkup)
           3 "c" chainTree _ _ eq_refl).
Defined.

(** [fetchDialogueData] stores the graph of [layoutGraph] whenever the node
    list is not empty. *)
Lemma fetchDialogueData_graph {lang : Language} {markup : InputMarkup} (fuel : nat)
    (c : string) (tree : TreeView) (st : ModalState)
    (newNodes : list FlowNode) (newEdges : list Edge) :
  c <> "" -> view_nodes tree <> [] ->
  layoutGraph fuel c tree = Some (newNodes, newEdges) ->
  fetchDialogueData fuel c (Some tree) st = Some (setGraph st newNodes newEdges).
Proof.
  intros Hc Hne Hlay. unfold fetchDialogueData.
  rewrite (proj2 (truthy_true c) Hc).
  destruct (view_nodes tree) eqn:Hv; [done|]. by rewrite Hlay.
Qed.

(** ** The "jump" action *)

(** C8: a jump requested on the node "root" raises the root tooltip (the
    "cannot jump to root" message), calls neither [onJumpClick] nor the
    switch operation behind it, and leaves the world, with the stored tree
    and its [current_node_id], as it was; on any other node the tooltip is
    not touched, so the signal is particular to the root. *)
Theorem jump_to_root_rejected {service : DialogueService}
    {owner : ModalOwner} (c : string)
    (st : ModalState) (cs : NodeComponentState) (w : World) :
  let result := handleJumpClick (handleJumpToNode c st) rootId cs w in
  showRootTooltip result.1 = true
  /\ isJumping result.1 = isJumping cs
  /\ result.2 = w
  /\ switchCalls result.2 = switchCalls w
  /\ current_node_id (store result.2) = current_node_id (store w)
  /\ (forall onJumpClick, handleJumpClick onJumpClick rootId cs w = result)
  /\ (forall i, i <> rootId ->
        showRootTooltip (handleJumpClick (handleJumpToNode c st) i cs w).1
        = showRootTooltip cs).
Proof.
  simpl. repeat (split; [reflexivity|]).
  intros i Hne. unfold handleJumpClick.
  destruct (decide (i = rootId)); [done|].
  destruct (isJumping cs); [done|].
  by destruct (handleJumpToNode c st i w).
Qed.

Lemma jump_to_root_rejected_witness :
  showRootTooltip
    (handleJumpClick
       (handleJumpToNode (service := sampleService) (owner := sampleOwner)
          "c" (editingA ""))
       "A" idleComponent fooWorld).1
  = false.
Proof.
  pose proof (jump_to_root_rejected (service := sampleService)
                (owner := sampleOwner) "c" (editingA "")
                idleComponent fooWorld) as (_ & _ & _ & _ & _ & _ & Hother).
  apply (Hother "A"). done.
Defined.

(** A jump to an ordinary node does reach the switch operation. *)
Example jump_to_A_switches :
  let result :=
    handleJumpClick
      (handleJumpToNode (service := sampleService) (owner := sampleOwner)
         "c" (editingA ""))
      "A" idleComponent fooWorld in
  switchCalls result.2 = [("c", "A")]
  /\ current_node_id (store result.2) = "A".
Proof. vm_compute. split; reflexivity. Qed.

(** ** The "edit" action *)

Lemma editNodeContent_ok (summarizer : string -> option string)
    (stamp : string) (tree : DialogueTree) (nodeId newText s : string) :
  nodeId ∈ map node_id (nodes tree) ->
  summarizer newText = Some s ->
  editNodeContent summarizer stamp tree nodeId newText
  = inr {| tree_id := tree_id tree;
           character_id := character_id tree;
           current_node_id := current_node_id tree;
           nodes := map (fun n => if decide (node_id n = nodeId)
                                  then editedNode newText s n else n)
                        (nodes tree);
           tree_created_at := tree_created_at tree;
           tree_updated_at := stamp |}.
Proof.
  intros Hin Hs. unfold editNodeContent.
  destruct (findNode (nodes tree) nodeId) eqn:Hf.
  - by rewrite Hs.
  - by apply findNode_None in Hf.
Qed.

Lemma editNodeContent_upstream_failure (summarizer : string -> option string)
    (stamp : string) (tree : DialogueTree) (nodeId newText : string) :
  summarizer newText = None ->
  exists err, editNodeContent summarizer stamp tree nodeId newText = inl err.
Proof.
  intros Hs. unfold editNodeContent.
  destruct (findNode (nodes tree) nodeId); rewrite ?Hs; eauto.
Qed.

(** C6: a successful edit gives the target node the new text as
    [assistant_response] and the summarizer's answer as the compressed
    content of [parsed_content]; every node keeps its identifier, its parent
    and its place; every node other than the target is left as it was; the
    current pointer stays; and the same holds for the nodes and edges shown
    by the modal. *)
Theorem edit_updates_only_target {service : DialogueService} (c : string)
    (st : ModalState) (w : World) (selected : FlowNode) (s : string) :
  selectedNode st = Some selected ->
  c <> "" ->
  flow_id selected ∈ map node_id (nodes (store w)) ->
  summarize (connectionParams (localStorage w)) (editContent st) = Some s ->
  let result := saveEditContent c st w in
  let tree' := store result.2 in
  editNodeContent (summarize (connectionParams (localStorage w))) now
    (store w) (flow_id selected) (editContent st) = inr tree'
  /\ length (nodes tree') = length (nodes (store w))
  /\ current_node_id tree' = current_node_id (store w)
  /\ (forall k n, nodes (store w) !! k = Some n ->
        exists n', nodes tree' !! k = Some n'
          /\ node_id n' = node_id n
          /\ parent_node_id n' = parent_node_id n
          /\ user_input n' = user_input n
          /\ full_response n' = full_response n
          /\ created_at n' = created_at n
          /\ (node_id n = flow_id selected ->
              assistant_response n' = editContent st
              /\ summaryOf n' = Some s)
          /\ (node_id n <> flow_id selected -> n' = n))
  /\ (forall k fn, flowNodes st !! k = Some fn ->
        exists fn', flowNodes result.1 !! k = Some fn'
          /\ flow_id fn' = flow_id fn
          /\ cell fn' = cell fn
          /\ (flow_id fn = flow_id selected ->
              assistantResponse (data fn') = editContent st
              /\ compressedContent (parsedContent (data fn')) = Some s)
          /\ (flow_id fn <> flow_id selected -> fn' = fn))
  /\ flowEdges result.1 = flowEdges st.
Proof.
  intros Hsel Hc Hin Hs.
  pose proof (editNodeContent_ok _ now (store w) _ _ _ Hin Hs) as Hedit.
  unfold saveEditContent, editDialaogueNodeContent.
  rewrite Hsel, (proj2 (truthy_true c) Hc), Hedit, Hs. simpl.
  split; [done|]. split; [by rewrite length_map|]. split; [done|].
  split; [|split; [|done]].
  - intros k n Hk. rewrite list_lookup_fmap, Hk. simpl.
    eexists. split; [done|].
    destruct (decide (node_id n = flow_id selected)); simpl;
      repeat split; try done; intros ?; done.
  - intros k fn Hk. rewrite list_lookup_fmap, Hk. simpl.
    eexists. split; [done|]. unfold updateFlowNode.
    destruct (decide (flow_id fn = flow_id selected)); simpl;
      repeat split; try done; intros ?; done.
Qed.

(** C7: when the summarizer fails, the edit fails as a whole: the operation
    answers with an error, an error is logged, and the stored tree, the
    nodes and edges of the modal and the open edit box stay as they were. *)
Theorem edit_fails_without_summary {service : DialogueService} (c : string)
    (st : ModalState) (w : World) (selected : FlowNode) :
  selectedNode st = Some selected ->
  c <> "" ->
  summarize (connectionParams (localStorage w)) (editContent st) = None ->
  let result := saveEditContent c st w in
  (exists err,
     editNodeContent (summarize (connectionParams (localStorage w))) now
       (store w) (flow_id selected) (editContent st) = inl err)
  /\ (flow_id selected ∈ map node_id (nodes (store w)) ->
      editNodeContent (summarize (connectionParams (localStorage w))) now
        (store w) (flow_id selected) (editContent st) = inl UpstreamFailure)
  /\ store result.2 = store w
  /\ flowNodes result.1 = flowNodes st
  /\ flowEdges result.1 = flowEdges st
  /\ isEditModalOpen result.1 = isEditModalOpen st
  /\ editContent result.1 = editContent st
  /\ dialogueEditNotified result.2 = dialogueEditNotified w
  /\ consoleErrors result.2
     = consoleErrors w ++ ["Error saving edited content:"].
Proof.
  intros Hsel Hc Hs.
  destruct (editNodeContent_upstream_failure _ now (store w)
              (flow_id selected) _ Hs) as [err Herr].
  split; [by exists err|].
  split.
  { intros Hin. unfold editNodeContent.
    destruct (findNode (nodes (store w)) (flow_id selected)) eqn:Hf.
    - by rewrite Hs.
    - by apply findNode_None in Hf. }
  unfold saveEditContent, editDialaogueNodeContent.
  rewrite Hsel, (proj2 (truthy_true c) Hc), Herr. simpl. done.
Qed.

(** Editing A from "foo" to "bar" with a summarizer that answers
    "B-summary". *)
Example edit_foo_bar :
  let result := saveEditContent (service := sampleService) "c" (editingA "bar") fooWorld in
  map (fun n => (node_id n, parent_node_id n, assistant_response n, summaryOf n))
      (nodes (store result.2))
  = [ ("root", "", "", None);
      ("A", "root", "bar", Some "B-summary");
      ("B", "A", "baz", None) ]
  /\ map (fun fn => (flow_id fn, assistantResponse (data fn),
                     compressedContent (parsedContent (data fn))))
         (flowNodes result.1)
     = [ ("root", "", None); ("A", "bar", Some "B-summary"); ("B", "baz", None) ].
Proof. vm_compute. split; reflexivity. Qed.

Lemma edit_updates_only_target_witness :
  current_node_id
    (store (saveEditContent (service := sampleService) "c" (editingA "bar") fooWorld).2)
  = "B".
Proof.
  pose proof (edit_updates_only_target (service := sampleService) "c"
                (editingA "bar") fooWorld
                (buildNode (lang := sampleLanguage) (markup := sampleMarkup) "c"
                   (nodes fooTree) ["B"; "A"] 1 1 (replyNode "A" "root" "foo"))
                "B-summary") as Hw.
  destruct Hw as (_ & _ & Hcur & _).
  - reflexivity.
  - done.
  - apply list_elem_of_In. vm_compute. right. left. reflexivity.
  - reflexivity.
  - exact Hcur.
Defined.

Lemma edit_fails_without_summary_witness :
  store (saveEditContent (service := sampleService) "c" (editingA "qux") fooWorld).2
  = fooTree.
Proof.
  pose proof (edit_fails_without_summary (service := sampleService) "c"
                (editingA "qux") fooWorld
                (buildNode (lang := sampleLanguage) (markup := sampleMarkup) "c"
                   (nodes fooTree) ["B"; "A"] 1 1 (replyNode "A" "root" "foo")))
    as Hw.
  destruct Hw as (_ & _ & Hstore & _).
  - reflexivity.
  - done.
  - reflexivity.
  - exact Hstore.
Defined.

(** ** The current path is the chain of ancestors *)

Lemma walkPath_pathFrom (allNodes : list DialogueNode) (fuel : nat)
    (i : string) (acc p : list string) :
  walkPath fuel allNodes i acc = Some p ->
  exists chain, p = acc ++ chain /\ pathFrom allNodes i chain.
Proof.
  revert i acc. induction fuel as [|f IH]; intros i acc Hw.
  - simpl in Hw. destruct (decide (i = rootId)) as [->|]; [|done].
    injection Hw as <-. exists []. split; [by rewrite app_nil_r | constructor].
  - destruct (decide (i = rootId)) as [->|Hne].
    + simpl in Hw. injection Hw as <-. exists [].
      split; [by rewrite app_nil_r | constructor].
    + rewrite walkPath_unfold in Hw by done.
      destruct (findNode allNodes i) as [node|] eqn:Hf.
      * apply IH in Hw as (chain & -> & Hchain).
        exists (i :: chain). split; [by rewrite <- app_assoc|].
        by econstructor.
      * injection Hw as <-. exists [i]. split; [done | by constructor].
Qed.

Lemma pathFrom_walkPath (allNodes : list DialogueNode) (i : string)
    (chain : list string) :
  pathFrom allNodes i chain ->
  forall fuel acc, length chain <= fuel ->
    walkPath fuel allNodes i acc = Some (acc ++ chain).
Proof.
  induction 1 as [|i Hne Hf|i node rest Hne Hf _ IH]; intros fuel acc Hlen.
  - rewrite app_nil_r. by destruct fuel.
  - destruct fuel as [|f]; [simpl in Hlen; lia|].
    rewrite walkPath_unfold by done. by rewrite Hf.
  - destruct fuel as [|f]; [simpl in Hlen; lia|].
    rewrite walkPath_unfold by done. rewrite Hf.
    rewrite IH by (simpl in Hlen; lia). by rewrite <- app_assoc.
Qed.

(** Two neighbours on the chain are a child and its parent. *)
Lemma pathFrom_neighbours (allNodes : list DialogueNode) (i : string)
    (chain : list string) (k : nat) (a b : string) :
  pathFrom allNodes i chain ->
  chain !! k = Some a -> chain !! S k = Some b ->
  a <> rootId /\ exists node, findNode allNodes a = Some node
                              /\ parent_node_id node = b.
Proof.
  intros Hp. revert k. induction Hp as [|i Hne Hf|i node rest Hne Hf Hrest IH];
    intros k Ha Hb; [done| by destruct k |].
  destruct k as [|k].
  - simpl in Ha, Hb. injection Ha as <-. split; [done|]. exists node.
    split; [done|]. inversion Hrest; simplify_eq; simpl in Hb; congruence.
  - simpl in Ha, Hb. by eapply IH.
Qed.

(** A chain member whose node has a parent other than "root" is followed on
    the chain by that parent. *)
Lemma pathFrom_next (allNodes : list DialogueNode) (i : string)
    (chain : list string) (k : nat) (a : string) (node : DialogueNode) :
  pathFrom allNodes i chain ->
  chain !! k = Some a -> findNode allNodes a = Some node ->
  parent_node_id node <> rootId ->
  chain !! S k = Some (parent_node_id node).
Proof.
  intros Hp. revert k. induction Hp as [|i Hne Hf|i n rest Hne Hf Hrest IH];
    intros k Ha Hfa Hpar; [done| |].
  - destruct k; [|done]. simpl in Ha. simplify_eq.
  - destruct k as [|k].
    + simpl in Ha. simplify_eq. simpl.
      inversion Hrest; simplify_eq; done.
    + simpl in Ha. simpl. by apply IH.
Qed.

(** X1: [computeCurrentPath] returns a list exactly when that list is the
    chain current, parent of current, parent of that, ... cut before "root"
    or after the first identifier that no node carries; as many loop
    iterations as the chain has entries are enough, and no other list is
    ever returned. *)
Theorem computeCurrentPath_is_chain (allNodes : list DialogueNode)
    (currentNodeId : string) (path : list string) :
  (pathFrom allNodes currentNodeId path <->
   computeCurrentPath (length path) allNodes currentNodeId = Some path)
  /\ (forall fuel, computeCurrentPath fuel allNodes currentNodeId = Some path ->
        pathFrom allNodes currentNodeId path /\ length path <= fuel).
Proof.
  unfold computeCurrentPath. split; [split|].
  - intros Hp. by apply (pathFrom_walkPath _ _ _ Hp _ []).
  - intros Hw. by apply walkPath_pathFrom in Hw as (chain & -> & Hp).
  - intros fuel Hw. split.
    + by apply walkPath_pathFrom in Hw as (chain & -> & Hp).
    + apply walkPath_length in Hw. simpl in Hw. lia.
Qed.

(** ** Highlighting of nodes *)

Lemma buildNodes_elem {lang : Language} {markup : InputMarkup} (c : string)
    (allNodes : list DialogueNode) (path : list string) (fn : FlowNode) :
  fn ∈ buildNodes c allNodes path ->
  exists k node, allNodes !! k = Some node
    /\ fn = buildNode c allNodes path
              (calculateOptimalLayout (length allNodes)) k node.
Proof.
  intros Hin. apply list_elem_of_lookup in Hin as [k Hk].
  apply buildNodes_lookup in Hk as (node & Hn & ->). by exists k, node.
Qed.

Lemma layoutGraph_Some {lang : Language} {markup : InputMarkup} (fuel : nat)
    (c : string) (tree : TreeView) (newNodes : list FlowNode)
    (newEdges : list Edge) :
  layoutGraph fuel c tree = Some (newNodes, newEdges) ->
  exists path,
    computeCurrentPath fuel (view_nodes tree) (effectiveCurrent tree) = Some path
    /\ newNodes = buildNodes c (view_nodes tree) path
    /\ newEdges = buildEdges (view_nodes tree) path.
Proof.
  unfold layoutGraph. intros Hlay.
  destruct (computeCurrentPath fuel (view_nodes tree) (effectiveCurrent tree))
    as [path|]; simpl in Hlay; [|done].
  injection Hlay as <- <-. by exists path.
Qed.

(** X2: in the graph [fetchDialogueData] lays out, the node "root" is never
    marked as being on the current path, whereas every node that carries
    the current identifier is, unless that identifier is "root"; so the
    component paints the root purple, the marked nodes red and all others in
    the neutral colours, and the purple of the root never hides a mark. *)
Theorem current_path_marks {lang : Language} {markup : InputMarkup}
    (fuel : nat) (c : string) (tree : TreeView) (newNodes : list FlowNode)
    (newEdges : list Edge) :
  layoutGraph fuel c tree = Some (newNodes, newEdges) ->
  forall fn, fn ∈ newNodes ->
    (flow_id fn = rootId -> isCurrentPath (data fn) = false)
    /\ (flow_id fn = effectiveCurrent tree -> flow_id fn <> rootId ->
        isCurrentPath (data fn) = true)
    /\ (borderColor (nodePalette (flow_id fn) (isCurrentPath (data fn)))
        = "border-purple-700" <-> flow_id fn = rootId)
    /\ (borderColor (nodePalette (flow_id fn) (isCurrentPath (data fn)))
        = "border-red-800" <-> isCurrentPath (data fn) = true).
Proof.
  intros Hlay fn Hfn.
  apply layoutGraph_Some in Hlay as (path & Hpath & -> & _).
  apply buildNodes_elem in Hfn as (k & node & _ & ->). simpl.
  assert (rootId ∉ path) as Hfree.
  { eapply walkPath_root_free; [exact Hpath | apply not_elem_of_nil]. }
  assert (node_id node = rootId -> includes path (node_id node) = false) as Hroot.
  { intros ->. apply bool_decide_eq_false. done. }
  split; [done|]. split.
  { intros Hcur Hne. apply includes_true. rewrite Hcur.
    eapply walkPath_start_in; [|exact Hpath]. by rewrite <- Hcur. }
  unfold nodePalette. destruct (decide (node_id node = rootId)) as [Hr|Hr].
  - rewrite (Hroot Hr). simpl. split; split; done.
  - destruct (includes path (node_id node)); simpl; split; split; done.
Qed.

Lemma current_path_marks_witness :
  Forall (fun fn => flow_id fn = rootId -> isCurrentPath (data fn) = false)
    (buildNodes (lang := sampleLanguage) (markup := sampleMarkup)
       "c" chainNodes ["B"; "A"]).
Proof.
  apply Forall_forall. intros fn Hfn.
  exact (proj1 (current_path_marks (lang := sampleLanguage)
                  (markup := sampleMarkup) 3 "c" chainTree _ _ eq_refl fn Hfn)).
Defined.

(** ** Shape of the emitted edges *)

Lemma buildEdge_shape {markup : InputMarkup} (m : NodeMap)
    (path : list string) (node : DialogueNode) (e : Edge) :
  buildEdge m path node = Some e ->
  let isCurrentPathEdge :=
    includes path (parent_node_id node) && includes path (node_id node) in
  let isRootSource := bool_decide (parent_node_id node = rootId) in
  node_id node <> "" /\ node_id node <> rootId
  /\ nodeMapTruthy m (parent_node_id node) = true
  /\ nodeMapTruthy m (node_id node) = true
  /\ source e = parent_node_id node /\ target e = node_id node
  /\ edge_id e = "edge-" +:+ parent_node_id node +:+ "-" +:+ node_id node
  /\ className e = (if isRootSource then "root-source"
                    else if isCurrentPathEdge then "current-path"
                    else "other-path")
  /\ stroke e = (if isRootSource then "#a78bfa"
                 else if isCurrentPathEdge then "#ef4444" else "#8a7a64")
  /\ labelStroke e = (if isRootSource then "#7c3aed"
                      else if isCurrentPathEdge then "#991b1b" else "#3a3633")
  /\ labelFill e = (if isRootSource then "#ddd6fe"
                    else if isCurrentPathEdge then "#fecaca" else "#a8a095")
  /\ strokeWidth e = (if isCurrentPathEdge || isRootSource then 3 else 2).
Proof.
  unfold buildEdge. intros Hb.
  destruct (truthy (node_id node)) eqn:Ht; simpl in Hb; [|done].
  destruct (bool_decide (node_id node = rootId)) eqn:Hr; simpl in Hb; [done|].
  destruct (nodeMapTruthy m (parent_node_id node)) eqn:Hs;
    simpl in Hb; [|done].
  destruct (nodeMapTruthy m (node_id node)) eqn:Hg;
    simpl in Hb; [|done].
  apply truthy_true in Ht. apply bool_decide_eq_false in Hr.
  injection Hb as <-. simpl. done.
Qed.

(** X3: the class of an emitted edge and its drawing style always agree:
    the class is one of "root-source", "current-path" and "other-path"; it
    is "root-source" exactly when the edge leaves "root"; the three colours
    are the ones of the class; the stroke is 2 wide for "other-path" and 3
    wide otherwise; and the edge identifier is "edge-", the source, "-" and
    the target. *)
Theorem edge_style_follows_class {markup : InputMarkup}
    (allNodes : list DialogueNode) (path : list string) (e : Edge) :
  e ∈ buildEdges allNodes path ->
  (className e = "root-source" \/ className e = "current-path"
   \/ className e = "other-path")
  /\ (className e = "root-source" <-> source e = rootId)
  /\ (stroke e, labelStroke e, labelFill e) = edgeColors (className e)
  /\ strokeWidth e = (if decide (className e = "other-path") then 2 else 3)
  /\ edge_id e = "edge-" +:+ source e +:+ "-" +:+ target e.
Proof.
  intros He. apply buildEdges_elem in He as (node & _ & Hb).
  apply buildEdge_shape in Hb
    as (_ & _ & _ & _ & -> & -> & -> & -> & -> & -> & -> & ->).
  case_bool_decide as Hroot.
  - rewrite orb_true_r. repeat split; auto.
  - destruct (includes path (parent_node_id node)
              && includes path (node_id node)); simpl;
      repeat split; auto; done.
Qed.

Lemma edge_style_follows_class_witness :
  Forall (fun e => (stroke e, labelStroke e, labelFill e)
                   = edgeColors (className e))
    (buildEdges (markup := sampleMarkup) chainNodes ["B"; "A"]).
Proof.
  apply Forall_forall. intros e He.
  pose proof (edge_style_follows_class (markup := sampleMarkup)
                chainNodes ["B"; "A"] e He) as (_ & _ & Hcol & _).
  exact Hcol.
Defined.

Lemma buildEdges_targets_sublist {markup : InputMarkup}
    (m : NodeMap) (path : list string)
    (l : list DialogueNode) :
  map target (omap (buildEdge m path) l) `sublist_of` map node_id l.
Proof.
  induction l as [|n l IH]; simpl; [constructor|].
  destruct (buildEdge m path n) as [e|] eqn:Hb; simpl.
  - apply buildEdge_shape in Hb as (_ & _ & _ & _ & _ & -> & _).
    by constructor.
  - by constructor.
Qed.

Lemma buildEdges_count {markup : InputMarkup}
    (m : NodeMap) (path : list string)
    (l : list DialogueNode) :
  length (omap (buildEdge m path) l)
  + length (filter (fun n => node_id n = rootId) l) <= length l.
Proof.
  induction l as [|n l IH]; [done|].
  rewrite filter_cons. cbn [omap list_omap length].
  destruct (buildEdge m path n) as [e|] eqn:Hb.
  - apply buildEdge_shape in Hb as (_ & Hnr & _).
    rewrite decide_False by done. cbn [length]. lia.
  - destruct (decide (node_id n = rootId)); cbn [length]; lia.
Qed.

Lemma buildEdges_count_exact {markup : InputMarkup}
    (m : NodeMap) (path : list string)
    (l : list DialogueNode) :
  (forall n, n ∈ l -> node_id n <> ""
                      /\ nodeMapTruthy m (node_id n) = true
                      /\ (node_id n <> rootId ->
                          nodeMapTruthy m (parent_node_id n) = true)) ->
  length (omap (buildEdge m path) l)
  + length (filter (fun n => node_id n = rootId) l) = length l.
Proof.
  induction l as [|n l IH]; intros Hall; [done|].
  rewrite filter_cons. cbn [omap list_omap length].
  assert (length (omap (buildEdge m path) l)
          + length (filter (fun n => node_id n = rootId) l) = length l) as IH'.
  { apply IH. intros x Hx. apply Hall. by right. }
  destruct (Hall n ltac:(by left)) as (Hne & Hself & Hpar).
  destruct (decide (node_id n = rootId)) as [Hr|Hr].
  - assert (buildEdge m path n = None) as ->.
    { unfold buildEdge. rewrite (bool_decide_eq_true_2 _ Hr).
      by rewrite andb_false_r. }
    cbn [length]. lia.
  - assert (is_Some (buildEdge m path n)) as [e ->].
    { unfold buildEdge. rewrite (proj2 (truthy_true _) Hne).
      rewrite (bool_decide_eq_false_2 _ Hr). simpl.
      rewrite (Hpar Hr), Hself. simpl. done. }
    cbn [length]. lia.
Qed.

(** X4: the edges come one per node at most and in the order of the nodes:
    the targets of the edges form a sub-sequence of the node identifiers, so
    with distinct node identifiers no node has two incoming edges; no edge
    ends at "root" or at the empty identifier; nodes and root nodes
    together outnumber the edges; and when every identifier is non-empty and
    every parent of a non-root node is present, each non-root node has its
    edge. *)
Theorem edges_one_per_child {markup : InputMarkup}
    (allNodes : list DialogueNode) (path : list string) :
  let edges := buildEdges allNodes path in
  let roots := filter (fun n => node_id n = rootId) allNodes in
  map target edges `sublist_of` map node_id allNodes
  /\ (NoDup (map node_id allNodes) -> NoDup (map target edges))
  /\ (forall e, e ∈ edges -> target e <> rootId /\ target e <> "")
  /\ length edges + length roots <= length allNodes
  /\ ((forall n, n ∈ allNodes ->
         node_id n <> ""
         /\ (node_id n <> rootId ->
             parent_node_id n ∈ map node_id allNodes)) ->
      length edges + length roots = length allNodes).
Proof.
  intros edges roots. subst edges roots. unfold buildEdges.
  split; [apply buildEdges_targets_sublist|].
  split.
  { intros Hnd. eapply sublist_NoDup; [exact Hnd|].
    apply buildEdges_targets_sublist. }
  split.
  { intros e He. apply list_elem_of_omap in He as (node & _ & Hb).
    apply buildEdge_shape in Hb as (Hne & Hnr & _ & _ & _ & -> & _). done. }
  split; [apply buildEdges_count|].
  intros Hall. apply buildEdges_count_exact.
  intros n Hn. destruct (Hall n Hn) as [Hne Hpar].
  split; [done|]. split.
  - apply nodeMapTruthy_id, list_elem_of_fmap. by exists n.
  - intros Hr. by apply nodeMapTruthy_id, Hpar.
Qed.

Lemma edges_one_per_child_witness :
  length (buildEdges (markup := sampleMarkup) tenNodes [])
  + length (filter (fun n => node_id n = rootId) tenNodes)
  = length tenNodes.
Proof.
  pose proof (edges_one_per_child (markup := sampleMarkup) tenNodes [])
    as (_ & _ & _ & _ & Hexact).
  apply Hexact. apply Forall_forall. unfold tenNodes.
  repeat (apply Forall_cons; split;
          [split; [vm_compute; discriminate|]; intros Hr;
           first [ solve [exfalso; apply Hr; reflexivity]
                 | solve [apply list_elem_of_In; vm_compute;
                          repeat (first [left; reflexivity | right])] ]|]).
  apply Forall_nil_2.
Defined.

(** X5: the edges of class "current-path" are the parent links the walk
    went along.  Two neighbours on the path, a child with a non-empty
    identifier and its parent when that parent is present, are joined by an
    emitted edge of that class; and with distinct node identifiers every
    edge of that class joins two neighbours on the path. *)
Theorem current_path_edges_are_walk_steps {markup : InputMarkup}
    (fuel : nat) (allNodes : list DialogueNode) (currentNodeId : string)
    (path : list string) :
  computeCurrentPath fuel allNodes currentNodeId = Some path ->
  (forall k a b,
      path !! k = Some a -> path !! S k = Some b ->
      a <> "" -> b ∈ map node_id allNodes ->
      exists e, e ∈ buildEdges allNodes path
                /\ source e = b /\ target e = a
                /\ className e = "current-path")
  /\ (NoDup (map node_id allNodes) ->
      forall e, e ∈ buildEdges allNodes path ->
        className e = "current-path" ->
        exists k, path !! k = Some (target e)
                  /\ path !! S k = Some (source e)).
Proof.
  intros Hpath.
  assert (rootId ∉ path) as Hfree.
  { eapply walkPath_root_free; [exact Hpath | apply not_elem_of_nil]. }
  unfold computeCurrentPath in Hpath.
  apply walkPath_pathFrom in Hpath as (chain & Heq & Hchain).
  simpl in Heq. subst chain. split.
  - intros k a b Ha Hb Hne Hin.
    destruct (pathFrom_neighbours _ _ _ _ _ _ Hchain Ha Hb)
      as (Hnr & node & Hf & Hpar).
    pose proof (findNode_Some _ _ _ Hf) as [Hnode Hid].
    assert (a ∈ path) as Hapath by (eapply list_elem_of_lookup_2; done).
    assert (b ∈ path) as Hbpath by (eapply list_elem_of_lookup_2; done).
    assert (b <> rootId) as Hbr by (intros ->; done).
    assert (is_Some (buildEdge (nodeMapOf allNodes) path node)) as [e He].
    { unfold buildEdge. rewrite Hid, Hpar.
      rewrite (proj2 (truthy_true _) Hne).
      rewrite (bool_decide_eq_false_2 _ Hnr). simpl.
      rewrite (nodeMapTruthy_id _ _ Hin).
      rewrite (nodeMapTruthy_id _ _ (findNode_id_in _ _ _ Hf)).
      simpl. done. }
    exists e. split; [apply buildEdges_elem; by exists node|].
    apply buildEdge_shape in He as (_ & _ & _ & _ & -> & -> & _ & -> & _).
    rewrite Hid, Hpar. split; [done|]. split; [done|].
    rewrite (bool_decide_eq_false_2 _ Hbr).
    by rewrite (proj2 (includes_true _ _) Hapath),
               (proj2 (includes_true _ _) Hbpath).
  - intros Hnd e He Hclass.
    apply buildEdges_elem in He as (node & Hnode & Hb).
    apply buildEdge_shape in Hb as (_ & Hnr & _ & _ & -> & -> & _ & Hc & _).
    rewrite Hc in Hclass.
    case_bool_decide as Hroot; [done|].
    destruct (includes path (parent_node_id node)) eqn:Hs; [|done].
    destruct (includes path (node_id node)) eqn:Ht; [|done].
    apply includes_true, list_elem_of_lookup in Ht as [k Hk].
    exists k. split; [done|].
    assert (findNode allNodes (node_id node) = Some node) as Hf.
    { destruct (findNode allNodes (node_id node)) as [n'|] eqn:Hf.
      - apply findNode_Some in Hf as [Hin' Hid'].
        f_equal. apply list_elem_of_lookup in Hin' as [i Hi].
        apply list_elem_of_lookup in Hnode as [j Hj].
        assert (i = j) as ->; [|congruence].
        eapply NoDup_lookup; [exact Hnd| |].
        + rewrite list_lookup_fmap, Hi. simpl. by rewrite Hid'.
        + by rewrite list_lookup_fmap, Hj.
      - apply findNode_None in Hf. exfalso. apply Hf.
        apply list_elem_of_fmap. by exists node. }
    by eapply pathFrom_next.
Qed.

Lemma chainNodes_distinct : NoDup (map node_id chainNodes).
Proof.
  unfold chainNodes, plainNode. simpl.
  repeat (constructor;
          [intros Hin; apply list_elem_of_In in Hin; simpl in Hin;
           intuition discriminate|]).
  constructor.
Qed.

Lemma current_path_edges_are_walk_steps_witness :
  Forall (fun e =>
            className e = "current-path" ->
            exists k, ["B"; "A"] !! k = Some (target e)
                      /\ ["B"; "A"] !! S k = Some (source e))
    (buildEdges (markup := sampleMarkup) chainNodes ["B"; "A"]).
Proof.
  apply Forall_forall.
  pose proof (current_path_edges_are_walk_steps (markup := sampleMarkup)
                3 chainNodes "B" ["B"; "A"] eq_refl) as [_ Hback].
  exact (Hback chainNodes_distinct).
Defined.

(** ** Loading the graph *)

Lemma buildNodes_ids {lang : Language} {markup : InputMarkup} (c : string)
    (allNodes : list DialogueNode) (path : list string) :
  map flow_id (buildNodes c allNodes path) = map node_id allNodes.
Proof.
  unfold buildNodes.
  change (map flow_id ?l) with (flow_id <$> l). rewrite fmap_imap.
  etrans; [|apply (imap_const node_id allNodes)]. by apply imap_ext.
Qed.

Lemma buildNodes_responses {lang : Language} {markup : InputMarkup}
    (c : string) (allNodes : list DialogueNode) (path : list string) :
  map (fun fn => assistantResponse (data fn)) (buildNodes c allNodes path)
  = map assistant_response allNodes.
Proof.
  unfold buildNodes.
  change (map ?f ?l) with (f <$> l). rewrite fmap_imap.
  etrans; [|apply (imap_const assistant_response allNodes)].
  by apply imap_ext.
Qed.

(** X6: with a character identifier and a non-empty tree without a cycle of
    parent links, [fetchDialogueData] finishes, marks the data as loaded and
    shows one node per tree node, in the same order and under the same
    identifier, with the response of the tree node as its text; it keeps
    whatever the editor state was. *)
Theorem fetchDialogueData_shows_every_node {lang : Language}
    {markup : InputMarkup} (c : string) (tree : TreeView) (st : ModalState) :
  c <> "" -> view_nodes tree <> [] -> acyclic (view_nodes tree) ->
  exists st',
    fetchDialogueData (S (length (view_nodes tree))) c (Some tree) st = Some st'
    /\ dataLoaded st' = true
    /\ map flow_id (flowNodes st') = map node_id (view_nodes tree)
    /\ map (fun fn => assistantResponse (data fn)) (flowNodes st')
       = map assistant_response (view_nodes tree)
    /\ (forall fn, fn ∈ flowNodes st' ->
          characterId (data fn) = c
          /\ fullContent (data fn) = assistantResponse (data fn))
    /\ selectedNode st' = selectedNode st
    /\ editContent st' = editContent st
    /\ isEditModalOpen st' = isEditModalOpen st.
Proof.
  intros Hc Hne Hacyc.
  destruct (walkPath_terminates (view_nodes tree)
              (S (length (view_nodes tree))) Hacyc)
    with (fuel := S (length (view_nodes tree))) (i := effectiveCurrent tree)
         (acc := @nil string) (visited := @nil string) as [path Hpath].
  { intros vs Hnd _ Hsub. pose proof (distinct_ids_bound _ _ Hnd Hsub). lia. }
  { constructor. }
  { apply not_elem_of_nil. }
  { intros v Hv. by apply elem_of_nil in Hv. }
  { intros v Hv. by apply elem_of_nil in Hv. }
  { simpl. lia. }
  unfold fetchDialogueData, layoutGraph, computeCurrentPath.
  rewrite (proj2 (truthy_true c) Hc), Hpath.
  destruct (view_nodes tree) as [|n0 l] eqn:Hv; [done|]. simpl mbind.
  exists (setGraph st (buildNodes c (n0 :: l) path) (buildEdges (n0 :: l) path)).
  split; [reflexivity|].
  split; [reflexivity|].
  split; [exact (buildNodes_ids c (n0 :: l) path)|].
  split; [exact (buildNodes_responses c (n0 :: l) path)|].
  split; [|done].
  intros fn Hfn. change (fn ∈ buildNodes c (n0 :: l) path) in Hfn.
  apply buildNodes_elem in Hfn as (k & x & _ & ->). done.
Qed.

Lemma fetchDialogueData_shows_every_node_witness :
  exists st',
    fetchDialogueData (lang := sampleLanguage) (markup := sampleMarkup)
      4 "c" (Some chainTree) (editingA "") = Some st'
    /\ map flow_id (flowNodes st') = ["root"; "A"; "B"].
Proof.
  destruct (fetchDialogueData_shows_every_node (lang := sampleLanguage)
              (markup := sampleMarkup) "c" chainTree (editingA ""))
    as (st' & Hfetch & _ & Hids & _).
  - done.
  - done.
  - exact chainNodes_acyclic.
  - exists st'. split; [exact Hfetch | exact Hids].
Defined.

(** X7: without a character identifier [fetchDialogueData] does nothing;
    with one, a failed response or an empty node list only marks the data
    as loaded: the nodes and edges drawn before stay on display. *)
Theorem fetchDialogueData_keeps_old_graph {lang : Language}
    {markup : InputMarkup} (fuel : nat) (c : string)
    (response : option TreeView) (st : ModalState) :
  (c = "" -> fetchDialogueData fuel c response st = Some st)
  /\ (c <> "" ->
      response = None \/ (exists tree, response = Some tree
                                       /\ view_nodes tree = []) ->
      exists st',
        fetchDialogueData fuel c response st = Some st'
        /\ dataLoaded st' = true
        /\ flowNodes st' = flowNodes st
        /\ flowEdges st' = flowEdges st
        /\ selectedNode st' = selectedNode st
        /\ editContent st' = editContent st
        /\ isEditModalOpen st' = isEditModalOpen st).
Proof.
  unfold fetchDialogueData. split.
  - intros ->. done.
  - intros Hc Hresp. rewrite (proj2 (truthy_true c) Hc).
    exists (setDataLoaded st).
    destruct Hresp as [->|(tree & -> & ->)]; done.
Qed.

Lemma fetchDialogueData_keeps_old_graph_witness :
  exists st',
    fetchDialogueData (lang := sampleLanguage) (markup := sampleMarkup)
      0 "c" (Some {| view_nodes := []; currentNodeId := None |})
      (editingA "") = Some st'
    /\ flowNodes st' = fooFlowNodes.
Proof.
  destruct (fetchDialogueData_keeps_old_graph (lang := sampleLanguage)
              (markup := sampleMarkup) 0 "c"
              (Some {| view_nodes := []; currentNodeId := None |})
              (editingA "")) as [_ Hkeep].
  destruct Hkeep as (st' & Hfetch & _ & Hnodes & _).
  - done.
  - right. by eexists.
  - exists st'. split; [exact Hfetch | exact Hnodes].
Defined.

(** ** Opening the editor *)

(** Searching the built nodes for an identifier finds the node built from
    the first tree node that carries it. *)
Lemma find_imap_flow (g : nat -> DialogueNode -> FlowNode)
    (l : list DialogueNode) (i : string) :
  (forall k n, flow_id (g k n) = node_id n) ->
  match findNode l i with
  | Some n =>
      exists k, l !! k = Some n
        /\ List.find (fun fn => bool_decide (flow_id fn = i)) (imap g l)
           = Some (g k n)
  | None =>
      List.find (fun fn => bool_decide (flow_id fn = i)) (imap g l) = None
  end.
Proof.
  revert g. unfold findNode.
  induction l as [|x l IH]; intros g Hg; [done|].
  cbn [imap List.find]. rewrite Hg.
  destruct (bool_decide (node_id x = i)).
  - by exists 0.
  - specialize (IH (g ∘ S) (fun k n => Hg (S k) n)).
    destruct (List.find _ l) as [n|].
    + destruct IH as (k & Hk & Hfind). by exists (S k).
    + done.
Qed.

(** X8: a click on a node opens the editor on the shown node built from the
    first tree node with that identifier and fills the edit box with that
    node's response; saving at once then asks the edit service for exactly
    this node and this text.  A click on an identifier that no shown node
    has changes nothing and logs one error. *)
Theorem handleEditNode_opens_clicked_node {lang : Language}
    {markup : InputMarkup} {service : DialogueService} (c : string)
    (allNodes : list DialogueNode) (path : list string)
    (st : ModalState) (w : World) (i : string) :
  flowNodes st = buildNodes c allNodes path ->
  (forall n, findNode allNodes i = Some n ->
     exists k fn,
       allNodes !! k = Some n
       /\ fn = buildNode c allNodes path
                 (calculateOptimalLayout (length allNodes)) k n
       /\ (handleEditNode i st w).2 = w
       /\ selectedNode (handleEditNode i st w).1 = Some fn
       /\ flow_id fn = i
       /\ editContent (handleEditNode i st w).1 = assistant_response n
       /\ isEditModalOpen (handleEditNode i st w).1 = true
       /\ flowNodes (handleEditNode i st w).1 = flowNodes st
       /\ flowEdges (handleEditNode i st w).1 = flowEdges st
       /\ (c <> "" ->
           editCalls (saveEditContent c (handleEditNode i st w).1 w).2
           = editCalls w ++ [(i, assistant_response n)]))
  /\ (i ∉ map node_id allNodes ->
      handleEditNode i st w = (st, logError "Node not found with ID:" w)).
Proof.
  intros Hnodes.
  pose proof (find_imap_flow
                (buildNode c allNodes path
                   (calculateOptimalLayout (length allNodes)))
                allNodes i (fun k n => eq_refl)) as Hfind.
  unfold handleEditNode. rewrite Hnodes. unfold buildNodes. split.
  - intros n Hn. rewrite Hn in Hfind. destruct Hfind as (k & Hk & ->).
    exists k, (buildNode c allNodes path
                 (calculateOptimalLayout (length allNodes)) k n).
    apply findNode_Some in Hn as [_ Hid]. simpl.
    repeat (split; [done|]).
    intros Hc. unfold saveEditContent. simpl.
    rewrite (proj2 (truthy_true c) Hc).
    destruct (editDialaogueNodeContent _ _ _ _) as [response tree'].
    rewrite Hid. by destruct (success response).
  - intros Hnin. apply findNode_None in Hnin. rewrite Hnin in Hfind.
    by rewrite Hfind.
Qed.

Lemma handleEditNode_opens_clicked_node_witness :
  editContent
    (handleEditNode "A" (editingA "") fooWorld).1 = "foo".
Proof.
  destruct (handleEditNode_opens_clicked_node (lang := sampleLanguage)
              (markup := sampleMarkup) (service := sampleService)
              "c" (nodes fooTree) ["B"; "A"] (editingA "") fooWorld "A"
              eq_refl) as [Hfound _].
  destruct (Hfound (replyNode "A" "root" "foo") eq_refl)
    as (k & fn & _ & _ & _ & _ & _ & Htext & _).
  exact Htext.
Defined.

(** ** Saving an edit *)

(** X9: whatever the outcome, [saveEditContent] leaves the identifier, the
    label, the full content, the user input, the current-path mark and the
    cell of every shown node as they were, and the edges too: after a
    successful edit the label and the full content still show the old
    summary and the old text. *)
Theorem saveEditContent_keeps_labels {service : DialogueService} (c : string)
    (st : ModalState) (w : World) :
  let st' := (saveEditContent c st w).1 in
  length (flowNodes st') = length (flowNodes st)
  /\ (forall k fn, flowNodes st !! k = Some fn ->
        exists fn', flowNodes st' !! k = Some fn'
          /\ flow_id fn' = flow_id fn
          /\ label (data fn') = label (data fn)
          /\ fullContent (data fn') = fullContent (data fn)
          /\ userInput (data fn') = userInput (data fn)
          /\ isCurrentPath (data fn') = isCurrentPath (data fn)
          /\ characterId (data fn') = characterId (data fn)
          /\ cell fn' = cell fn)
  /\ flowEdges st' = flowEdges st
  /\ selectedNode st' = selectedNode st
  /\ editContent st' = editContent st.
Proof.
  unfold saveEditContent.
  destruct (selectedNode st) as [selected|] eqn:Hsel;
    [|simpl; repeat split; eauto 10].
  destruct (truthy c); [|simpl; repeat split; eauto 10].
  destruct (editDialaogueNodeContent _ _ _ _) as [response tree'].
  destruct (success response); [|simpl; repeat split; eauto 10].
  simpl. split; [by rewrite length_map|]. split; [|done].
  intros k fn Hk. rewrite list_lookup_fmap, Hk. simpl.
  eexists. split; [done|]. unfold updateFlowNode.
  by destruct (decide (flow_id fn = flow_id selected)).
Qed.

(** X10: without a selected node, or without a character identifier,
    [saveEditContent] only closes the edit box: the edit service is not
    called and nothing else changes. *)
Theorem saveEditContent_without_target {service : DialogueService}
    (c : string) (st : ModalState) (w : World) :
  selectedNode st = None \/ c = "" ->
  (saveEditContent c st w).2 = w
  /\ isEditModalOpen (saveEditContent c st w).1 = false
  /\ flowNodes (saveEditContent c st w).1 = flowNodes st
  /\ flowEdges (saveEditContent c st w).1 = flowEdges st
  /\ isSaving (saveEditContent c st w).1 = isSaving st
  /\ editContent (saveEditContent c st w).1 = editContent st.
Proof.
  intros Hnone. unfold saveEditContent.
  destruct (selectedNode st) as [selected|]; [|done].
  destruct Hnone as [?| ->]; done.
Qed.

Lemma saveEditContent_without_target_witness :
  (saveEditContent (service := sampleService) "" (editingA "bar") fooWorld).2
  = fooWorld.
Proof.
  apply (saveEditContent_without_target (service := sampleService)
           "" (editingA "bar") fooWorld).
  by right.
Defined.

(** ** Jumping *)

(** X11: [handleJumpToNode], as the node callbacks hold it, tests the
    jumping flag of the modal state captured when the graph was built.  It
    does nothing when that captured flag is set or when there is no
    character identifier.  Otherwise it calls the switch operation exactly
    once, for this character and this node.  When the switch succeeds and
    the owner gave no [onDialogueEdit], it schedules the closing of the
    modal and answers true, notifying nobody; when the owner's
    [onDialogueEdit] returns, the owner is notified as well; when it fails,
    the owner was called, one error is logged, the modal stays open and the
    answer is false.  When the switch fails, one error is logged, the modal
    stays open, nobody is notified and the answer is false.  The run is the
    part up to the request followed by the part after it, which raise and
    lower the flag of the modal state of the moment. *)
Theorem handleJumpToNode_outcomes {service : DialogueService}
    {owner : ModalOwner} (c : string) (captured : ModalState)
    (nodeId : string) (w : World) :
  let result := handleJumpToNode c captured nodeId w in
  let switched := switchDialogueBranch c nodeId (store w) in
  (c = "" \/ isJumpingToNode captured = true -> result = (None, w))
  /\ (c <> "" -> isJumpingToNode captured = false ->
      switchCalls result.2 = switchCalls w ++ [(c, nodeId)]
      /\ store result.2 = switched.2
      /\ localStorage result.2 = localStorage w
      /\ editCalls result.2 = editCalls w
      /\ (switched.1 = true -> onDialogueEdit = CallbackAbsent ->
          result.1 = Some true
          /\ closeScheduled result.2 = true
          /\ dialogueEditNotified result.2 = dialogueEditNotified w
          /\ consoleErrors result.2 = consoleErrors w)
      /\ (switched.1 = true -> onDialogueEdit = CallbackReturns ->
          result.1 = Some true
          /\ closeScheduled result.2 = true
          /\ dialogueEditNotified result.2 = S (dialogueEditNotified w)
          /\ consoleErrors result.2 = consoleErrors w)
      /\ (switched.1 = true -> onDialogueEdit = CallbackFails ->
          result.1 = Some false
          /\ closeScheduled result.2 = closeScheduled w
          /\ dialogueEditNotified result.2 = S (dialogueEditNotified w)
          /\ consoleErrors result.2
             = consoleErrors w ++ ["Error jumping to node:"])
      /\ (switched.1 = false ->
          result.1 = Some false
          /\ closeScheduled result.2 = closeScheduled w
          /\ dialogueEditNotified result.2 = dialogueEditNotified w
          /\ consoleErrors result.2
             = consoleErrors w ++ ["Error jumping to node:"]))
  /\ (forall live,
        match beginJumpToNode c captured nodeId live w with
        | None => result = (None, w)
        | Some (raised, requested) =>
            isJumpingToNode raised = true
            /\ result = (Some (endJumpToNode c nodeId raised requested).1.1,
                         (endJumpToNode c nodeId raised requested).2)
            /\ isJumpingToNode (endJumpToNode c nodeId raised requested).1.2
               = false
        end).
Proof.
  unfold handleJumpToNode. split; [|split].
  - intros [Hc | Hbusy]; [by rewrite Hc | by rewrite Hbusy, orb_true_r].
  - intros Hc Hidle. rewrite (proj2 (truthy_true c) Hc), Hidle. simpl.
    unfold settleJump.
    destruct (switchDialogueBranch c nodeId (store w)) as [ok tree'].
    destruct ok, onDialogueEdit; simpl; repeat split; done.
  - intros live. unfold beginJumpToNode, endJumpToNode.
    destruct (negb (truthy c) || isJumpingToNode captured); [done|].
    simpl. unfold settleJump.
    destruct (switchDialogueBranch c nodeId (store w)) as [ok tree'].
    destruct ok, onDialogueEdit; simpl; repeat split; done.
Qed.

Lemma handleJumpToNode_outcomes_witness :
  (handleJumpToNode (service := sampleService) (owner := failingOwner)
     "c" (editingA "") "A" fooWorld).1 = Some false
  /\ closeScheduled
       (handleJumpToNode (service := sampleService) (owner := failingOwner)
          "c" (editingA "") "A" fooWorld).2 = false
  /\ dialogueEditNotified
       (handleJumpToNode (service := sampleService) (owner := failingOwner)
          "c" (editingA "") "A" fooWorld).2 = 1
  /\ consoleErrors
       (handleJumpToNode (service := sampleService) (owner := failingOwner)
          "c" (editingA "") "A" fooWorld).2 = ["Error jumping to node:"].
Proof.
  destruct (handleJumpToNode_outcomes (service := sampleService)
              (owner := failingOwner) "c" (editingA "") "A" fooWorld)
    as (_ & Hrun & _).
  destruct Hrun as (_ & _ & _ & _ & _ & _ & Hfail & _); [done | done |].
  apply Hfail; reflexivity.
Defined.

(** X12: one click on the jump button of a node leads to at most one call
    of the switch operation, and to none when the node is "root", when the
    button is busy, when there is no character identifier or when the modal
    state captured with the graph was already jumping; in every other case
    it leads to exactly one call for the clicked node.  Afterwards the
    button of a node other than "root" is not busy unless it was busy and
    ignored the click.  The captured flag is not the flag of the moment: a
    jump begun through the same callbacks while another is in flight, the
    flag being raised by then, reaches the switch operation as well, so two
    overlapping jumps make two calls. *)
Theorem handleJumpClick_calls {service : DialogueService} {owner : ModalOwner}
    (c : string) (captured : ModalState) (i : string)
    (cs : NodeComponentState) (w : World) :
  let result := handleJumpClick (handleJumpToNode c captured) i cs w in
  let allowed :=
    negb (bool_decide (i = rootId)) && negb (isJumping cs)
    && truthy c && negb (isJumpingToNode captured) in
  switchCalls result.2
  = switchCalls w ++ (if allowed then [(c, i)] else [])
  /\ (allowed = false -> result.2 = w)
  /\ isExpanded result.1 = isExpanded cs
  /\ (i <> rootId -> isJumping result.1 = true -> isJumping cs = true)
  /\ (i <> rootId -> isJumping cs = true -> result = (cs, w))
  /\ (forall live i', c <> "" -> isJumpingToNode captured = false ->
        exists raised requested raised' requested',
          beginJumpToNode c captured i live w = Some (raised, requested)
          /\ isJumpingToNode raised = true
          /\ beginJumpToNode c captured i' raised requested
             = Some (raised', requested')
          /\ switchCalls requested' = switchCalls w ++ [(c, i); (c, i')]).
Proof.
  split; [|split; [|split; [|split; [|split]]]];
    try (unfold handleJumpClick;
         destruct (decide (i = rootId)) as [Hr|Hr];
         [ rewrite ?(bool_decide_eq_true_2 _ Hr); simpl;
           rewrite ?app_nil_r; done
         | rewrite ?(bool_decide_eq_false_2 _ Hr); simpl;
           destruct (isJumping cs) eqn:Hj; simpl;
           [ rewrite ?app_nil_r; done |];
           unfold handleJumpToNode, settleJump;
           destruct (truthy c); simpl; [|rewrite ?app_nil_r; done];
           destruct (isJumpingToNode captured); simpl;
           [rewrite ?app_nil_r; done|];
           destruct (switchDialogueBranch c i (store w)) as [ok tree'];
           destruct ok, onDialogueEdit; simpl; done ]).
  intros live i' Hc Hidle. unfold beginJumpToNode.
  rewrite (proj2 (truthy_true c) Hc), Hidle. simpl.
  eexists _, _, _, _. split; [reflexivity|].
  split; [reflexivity|]. split; [reflexivity|].
  simpl. by rewrite <- app_assoc.
Qed.

Lemma handleJumpClick_calls_witness :
  exists raised requested raised' requested',
    beginJumpToNode "c" (editingA "") "A" (editingA "") fooWorld
    = Some (raised, requested)
    /\ isJumpingToNode raised = true
    /\ beginJumpToNode "c" (editingA "") "B" raised requested
       = Some (raised', requested')
    /\ switchCalls requested'
       = switchCalls fooWorld ++ [("c", "A"); ("c", "B")].
Proof.
  pose proof (handleJumpClick_calls (service := sampleService)
                (owner := sampleOwner) "c" (editingA "") "A"
                idleComponent fooWorld)
    as (_ & _ & _ & _ & _ & Hoverlap).
  apply (Hoverlap (editingA "") "B"); done.
Defined.

(** ** The model sidebar *)

Lemma someConfig_true (i : string) (l : list APIConfig) :
  someConfig i l = true <-> i ∈ map config_id l.
Proof.
  unfold someConfig. rewrite existsb_exists, list_elem_of_fmap. split.
  - intros (c & Hin & Hb). apply bool_decide_eq_true in Hb.
    exists c. split; [done | by apply list_elem_of_In].
  - intros (c & -> & Hin). exists c.
    split; [by apply list_elem_of_In | by apply bool_decide_eq_true].
Qed.

Lemma findConfig_Some (i : string) (l : list APIConfig) (c : APIConfig) :
  findConfig i l = Some c -> c ∈ l /\ config_id c = i.
Proof.
  unfold findConfig. intros H. apply find_some in H as [Hin Hb].
  apply bool_decide_eq_true in Hb. split; [by apply list_elem_of_In | done].
Qed.

Lemma findConfig_listed (i : string) (l : list APIConfig) :
  i ∈ map config_id l -> is_Some (findConfig i l).
Proof.
  intros Hin. apply list_elem_of_fmap in Hin as (c & -> & Hc).
  unfold findConfig. destruct (List.find _ l) as [c'|] eqn:E; [done|].
  apply list_elem_of_In in Hc.
  pose proof (find_none _ _ E c Hc) as Hb. simpl in Hb.
  by apply bool_decide_eq_false in Hb.
Qed.

Lemma loadConfigToForm_keeps (config : APIConfig) (st : SidebarState)
    (env : SidebarEnv) :
  configs (loadConfigToForm config st env).1 = configs st
  /\ activeConfigId (loadConfigToForm config st env).1 = activeConfigId st
  /\ showNewConfigForm (loadConfigToForm config st env).1 = showNewConfigForm st
  /\ storage (loadConfigToForm config st env).2 = storage env.
Proof.
  unfold loadConfigToForm. simpl. repeat split.
  by destruct (truthy (config_baseUrl config)
               && truthy (default "" (config_apiKey config))).
Qed.

Lemma updated_ids (f : APIConfig -> APIConfig) (a : string)
    (l : list APIConfig) :
  (forall c, config_id (f c) = config_id c) ->
  map config_id
    (map (fun c => if decide (config_id c = a) then f c else c) l)
  = map config_id l.
Proof.
  intros Hf. rewrite map_map. apply map_ext. intros c.
  by destruct (decide (config_id c = a)).
Qed.

(** The merged list keeps the saved configurations in front and holds both
    built-in ones. *)
Lemma mergeDefaults_has_defaults {host : SidebarHost} (saved : list APIConfig) :
  (exists added, mergeDefaults saved = saved ++ added
                 /\ (firstInitOf saved = false <-> added = []))
  /\ "deepseek_default" ∈ map config_id (mergeDefaults saved)
  /\ "gemini_default" ∈ map config_id (mergeDefaults saved).
Proof.
  unfold mergeDefaults, firstInitOf.
  destruct (someConfig (config_id DEFAULT_DEEPSEEK_CONFIG) saved) eqn:Hd;
    [destruct (someConfig (config_id DEFAULT_GEMINI_CONFIG) saved) eqn:Hg
    |destruct (someConfig (config_id DEFAULT_GEMINI_CONFIG)
                 (saved ++ [DEFAULT_DEEPSEEK_CONFIG])) eqn:Hg]; simpl;
    try apply someConfig_true in Hd; try apply someConfig_true in Hg.
  - split; [exists []; by rewrite app_nil_r|]. done.
  - split; [by exists [DEFAULT_GEMINI_CONFIG]|].
    rewrite map_app, !elem_of_app. split; [by left | right; simpl; by left].
  - split; [by exists [DEFAULT_DEEPSEEK_CONFIG]|].
    split; [|done]. rewrite map_app, elem_of_app. right. simpl. by left.
  - split.
    { exists [DEFAULT_DEEPSEEK_CONFIG; DEFAULT_GEMINI_CONFIG].
      by rewrite <- app_assoc. }
    rewrite !map_app, !elem_of_app. simpl. split.
    + left. right. by left.
    + right. by left.
Qed.

Lemma activeIdCandidateOf_listed {host : SidebarHost}
    (stored : option string) (merged : list APIConfig) :
  "deepseek_default" ∈ map config_id merged ->
  activeIdCandidateOf stored merged <> ""
  /\ activeIdCandidateOf stored merged ∈ map config_id merged.
Proof.
  intros Hdeep. unfold activeIdCandidateOf.
  destruct stored as [a|]; [|by split].
  destruct (truthy a) eqn:Ha; simpl; [|by split].
  destruct (someConfig a merged) eqn:Hs; [|by split].
  split; [by apply truthy_true | by apply someConfig_true].
Qed.

(** X13: the active identifier always names a listed configuration or is
    empty.  Mounting the sidebar leaves a non-empty active identifier that
    is listed; creating, cancelling, saving, deleting, changing the model
    and switching to a listed configuration all keep the property. *)
Theorem active_config_stays_listed {host : SidebarHost} (st : SidebarState)
    (env : SidebarEnv) :
  (forall result, mountSidebar st env = Some result ->
     activeConfigId result.1 <> ""
     /\ activeConfigId result.1 ∈ map config_id (configs result.1))
  /\ activeListed (handleCreateConfig st)
  /\ (activeListed st ->
      activeListed (handleCancelCreate st env).1
      /\ (forall nowMs, activeListed (handleSave nowMs st env).1)
      /\ (forall i, activeListed (handleDeleteConfig i st env).1)
      /\ (forall m, activeListed (handleModelChange m st env).1)
      /\ (forall i, i ∈ map config_id (configs st) ->
            activeListed (handleSwitchConfig i st env).1)).
Proof.
  split; [|split].
  - intros result Hmount. unfold mountSidebar in Hmount.
    destruct (readSavedConfigs env) as [[saved env0]|]; [|done].
    cbn [mbind option_bind] in Hmount.
    destruct (mergeDefaults_has_defaults saved) as (_ & Hdeep & _).
    match type of Hmount with
    | context [activeIdCandidateOf ?stored _] =>
        destruct (activeIdCandidateOf_listed stored _ Hdeep) as [Hne Hin]
    end.
    destruct (_ || _) in Hmount.
    + injection Hmount as <-.
      match goal with
      | |- context [loadConfigToForm ?cfg ?s ?e] =>
          destruct (loadConfigToForm_keeps cfg s e) as (-> & -> & _)
      end. done.
    + destruct (findConfig _ _) as [config|]; [|done].
      cbn [mbind option_bind] in Hmount. injection Hmount as <-.
      match goal with
      | |- context [loadConfigToForm ?cfg ?s ?e] =>
          destruct (loadConfigToForm_keeps cfg s e) as (-> & -> & _)
      end. done.
  - unfold activeListed, handleCreateConfig. simpl. by left.
  - intros Hlisted. split; [|split; [|split; [|split]]].
    + unfold handleCancelCreate.
      destruct (configs st) as [|first rest] eqn:Hconfigs.
      * destruct Hlisted as [H0|Hin]; [by left|].
        rewrite Hconfigs in Hin. by apply elem_of_nil in Hin.
      * assert (activeListed
                  (loadConfigToForm first
                     (setActiveConfigId (config_id first)
                        (setShowNewConfigForm false st)) env).1) as Hfirst.
        { right. unfold loadConfigToForm. simpl. rewrite Hconfigs. simpl.
          by left. }
        destruct (truthy (activeConfigId st)); [|done].
        destruct (findConfig (activeConfigId st) (first :: rest))
          as [selected|] eqn:Hf; [|done].
        right. unfold loadConfigToForm. simpl. rewrite Hconfigs.
        apply findConfig_Some in Hf as [Hin <-].
        apply list_elem_of_fmap. by exists selected.
    + intros nowMs. unfold handleSave.
      destruct (showNewConfigForm st); simpl.
      * right. simpl. rewrite map_app, elem_of_app. right. simpl. by left.
      * destruct Hlisted as [H0|Hin]; [by left|]. right. simpl.
        by rewrite updated_ids.
    + intros i. unfold handleDeleteConfig.
      destruct (decide (i = activeConfigId st)) as [->|Hne].
      * destruct (filter _ (configs st)) as [|first rest] eqn:Hfilter.
        -- simpl. by left.
        -- right. unfold loadConfigToForm. simpl. by left.
      * simpl. destruct Hlisted as [H0|Hin]; [by left|]. right. simpl.
        apply list_elem_of_fmap in Hin as (c & Hid & Hc).
        apply list_elem_of_fmap. exists c. split; [done|].
        apply list_elem_of_filter. split; [|done]. congruence.
    + intros m. unfold handleModelChange.
      destruct Hlisted as [H0|Hin]; [by left|]. right. simpl.
      by rewrite updated_ids.
    + intros i Hi. unfold handleSwitchConfig.
      destruct (decide (i = activeConfigId st)); [done|].
      destruct (findConfig_listed _ _ Hi) as [selected Hsel]. rewrite Hsel.
      right. unfold loadConfigToForm. simpl. done.
Qed.

Lemma active_config_stays_listed_witness :
  activeListed (handleSwitchConfig "gemini_default" threeConfigs emptyEnv).1.
Proof.
  destruct (active_config_stays_listed (host := sampleHost) threeConfigs
              emptyEnv) as (_ & _ & Hkeep).
  destruct Hkeep as (_ & _ & _ & _ & Hswitch).
  - right. apply list_elem_of_In. vm_compute. left. reflexivity.
  - apply Hswitch. apply list_elem_of_In. vm_compute.
    right. right. left. reflexivity.
Defined.

Lemma connectionParams_agree (ls ls' : gmap string string) :
  (forall k, k ∈ connectionKeys -> ls' !! k = ls !! k) ->
  connectionParams ls' = connectionParams ls.
Proof.
  intros Hagree. unfold connectionParams, getItemOr.
  rewrite !Hagree; [done|..]; unfold connectionKeys;
    rewrite !elem_of_cons; tauto.
Qed.

Lemma connectionParams_setItem (k v : string) (ls : gmap string string) :
  k ∉ connectionKeys -> connectionParams (<[k := v]> ls) = connectionParams ls.
Proof.
  intros Hk. apply connectionParams_agree. intros k' Hk'.
  apply lookup_insert_ne. by intros ->.
Qed.

Lemma apiConfigs_not_connection : "apiConfigs" ∉ connectionKeys.
Proof.
  unfold connectionKeys. intros Hin. apply list_elem_of_In in Hin.
  simpl in Hin. intuition discriminate.
Qed.

Lemma activeConfigId_not_connection : "activeConfigId" ∉ connectionKeys.
Proof.
  unfold connectionKeys. intros Hin. apply list_elem_of_In in Hin.
  simpl in Hin. intuition discriminate.
Qed.

(** X14: switching to another configuration, deleting one, cancelling the
    form and creating a new configuration never change the connection
    parameters that the dialogue editor reads from local storage; only
    saving the active configuration, changing its model and the mount
    effect write them. *)
Theorem sidebar_actions_keep_connection {host : SidebarHost}
    (st : SidebarState) (env : SidebarEnv) :
  (forall i, connectionParams (storage (handleSwitchConfig i st env).2)
             = connectionParams (storage env))
  /\ (forall i, connectionParams (storage (handleDeleteConfig i st env).2)
                = connectionParams (storage env))
  /\ connectionParams (storage (handleCancelCreate st env).2)
     = connectionParams (storage env)
  /\ (showNewConfigForm st = true ->
      forall nowMs,
        connectionParams (storage (handleSave nowMs st env).2)
        = connectionParams (storage env)).
Proof.
  split; [|split; [|split]].
  - intros i. unfold handleSwitchConfig.
    destruct (decide (i = activeConfigId st)); [done|].
    destruct (findConfig i (configs st)) as [selected|]; [|done].
    destruct (loadConfigToForm selected (setActiveConfigId i st) env)
      as [st2 env2] eqn:Hload.
    pose proof (loadConfigToForm_keeps selected (setActiveConfigId i st) env)
      as (_ & _ & _ & Hstore).
    rewrite Hload in Hstore. simpl in *.
    rewrite connectionParams_setItem by apply activeConfigId_not_connection.
    by rewrite Hstore.
  - intros i. unfold handleDeleteConfig.
    destruct (decide (i = activeConfigId st)).
    + destruct (filter _ (configs st)) as [|first rest].
      * simpl.
        rewrite connectionParams_setItem by apply activeConfigId_not_connection.
        by rewrite connectionParams_setItem by apply apiConfigs_not_connection.
      * destruct (loadConfigToForm first _ env) as [st2 env2] eqn:Hload.
        match type of Hload with
        | loadConfigToForm ?cfg ?s ?e = _ =>
            pose proof (loadConfigToForm_keeps cfg s e) as (_ & _ & _ & Hstore)
        end.
        rewrite Hload in Hstore. simpl in *.
        rewrite connectionParams_setItem by apply activeConfigId_not_connection.
        rewrite connectionParams_setItem by apply apiConfigs_not_connection.
        by rewrite Hstore.
    + simpl.
      by rewrite connectionParams_setItem by apply apiConfigs_not_connection.
  - unfold handleCancelCreate.
    destruct (configs st) as [|first rest]; [done|].
    destruct (truthy (activeConfigId st));
      [destruct (findConfig _ _) as [selected|]|];
      match goal with
      | |- context [loadConfigToForm ?cfg ?s ?e] =>
          pose proof (loadConfigToForm_keeps cfg s e) as (_ & _ & _ & ->)
      end; done.
  - intros Hnew nowMs. unfold handleSave. rewrite Hnew. simpl.
    rewrite connectionParams_setItem by apply activeConfigId_not_connection.
    by rewrite connectionParams_setItem by apply apiConfigs_not_connection.
Qed.

Lemma sidebar_actions_keep_connection_witness :
  connectionParams
    (storage (handleSave (host := sampleHost) 5
                (handleCreateConfig threeConfigs) emptyEnv).2)
  = connectionParams ∅.
Proof.
  destruct (sidebar_actions_keep_connection (host := sampleHost)
              (handleCreateConfig threeConfigs) emptyEnv)
    as (_ & _ & _ & Hsave).
  apply Hsave. reflexivity.
Defined.

Lemma storeConnection_lookup (type : LLMType) (url m : string)
    (key : option string) (env : SidebarEnv) :
  let ls := storage (storeConnection type url m key env) in
  ls !! "modelName" = Some m
  /\ ls !! "modelBaseUrl" = Some url
  /\ ls !! "llmType" = Some (llmTypeName type)
  /\ ls !! "language" = storage env !! "language"
  /\ ls !! "apiConfigs" = storage env !! "apiConfigs"
  /\ ls !! "activeConfigId" = storage env !! "activeConfigId"
  /\ ls !! "apiKey" = match type, key with
                      | openai, Some k => Some k
                      | _, _ => storage env !! "apiKey"
                      end.
Proof.
  unfold storeConnection, setItem.
  destruct type, key; simpl;
    repeat split;
    repeat first [ rewrite lookup_insert_eq
                 | rewrite lookup_insert_ne by discriminate ]; done.
Qed.

Lemma connectionParams_lookup (ls : gmap string string) :
  connectionParams ls !! "model_name" = Some (getItemOr ls "modelName" "")
  /\ connectionParams ls !! "api_key" = Some (getItemOr ls "apiKey" "")
  /\ connectionParams ls !! "base_url" = Some (getItemOr ls "modelBaseUrl" "")
  /\ connectionParams ls !! "llm_type" = Some (getItemOr ls "llmType" "openai")
  /\ connectionParams ls !! "language" = Some (getItemOr ls "language" "zh").
Proof.
  unfold connectionParams.
  repeat split;
    repeat first [ rewrite lookup_insert_eq
                 | rewrite lookup_insert_ne by discriminate ]; done.
Qed.

Lemma getItemOr_stored (ls : gmap string string) (key v : string) :
  ls !! key = Some v -> getItemOr ls key "" = v.
Proof.
  intros Hv. unfold getItemOr. rewrite Hv.
  destruct (truthy v) eqn:E; [done|]. by apply truthy_false in E.
Qed.

(** X15: saving the active configuration (the form for a new one being
    closed) rewrites the type, base URL, model and key of the configurations
    with the active identifier and of no other, keeping every identifier and
    name; and it stores the connection: afterwards the dialogue editor reads
    the model, the base URL and the type of the form, the key of the form
    for the "openai" type, and for the "ollama" type whatever key was stored
    before. *)
Theorem handleSave_stores_connection {host : SidebarHost} (nowMs : N)
    (st : SidebarState) (env : SidebarEnv) :
  showNewConfigForm st = false ->
  let st' := (handleSave nowMs st env).1 in
  let params := connectionParams (storage (handleSave nowMs st env).2) in
  map config_id (configs st') = map config_id (configs st)
  /\ map config_name (configs st') = map config_name (configs st)
  /\ (forall k c, configs st !! k = Some c ->
        exists c', configs st' !! k = Some c'
          /\ (config_id c <> activeConfigId st -> c' = c)
          /\ (config_id c = activeConfigId st ->
              config_type c' = llmType st
              /\ config_baseUrl c' = baseUrl st
              /\ config_model c' = model st
              /\ config_apiKey c'
                 = match llmType st with
                   | openai => Some (apiKey st) | ollama => None end))
  /\ activeConfigId st' = activeConfigId st
  /\ storage (handleSave nowMs st env).2 !! "apiConfigs"
     = Some (stringifyConfigs (configs st'))
  /\ params !! "model_name" = Some (model st)
  /\ params !! "base_url" = Some (baseUrl st)
  /\ params !! "llm_type" = Some (llmTypeName (llmType st))
  /\ params !! "api_key"
     = match llmType st with
       | openai => Some (apiKey st)
       | ollama => connectionParams (storage env) !! "api_key"
       end
  /\ params !! "language" = connectionParams (storage env) !! "language".
Proof.
  intros Hold. unfold handleSave. rewrite Hold. cbn [fst snd].
  match goal with
  | |- context [storeConnection ?ty ?u ?m ?k ?e] =>
      pose proof (storeConnection_lookup ty u m k e)
        as (Hm & Hu & Ht & Hl & Hc & _ & Hk)
  end.
  split; [simpl; by rewrite updated_ids|].
  split.
  { simpl. rewrite map_map. apply map_ext. intros c.
    by destruct (decide (config_id c = activeConfigId st)). }
  split.
  { intros k c Hk'. simpl. rewrite list_lookup_fmap, Hk'. simpl.
    eexists. split; [done|].
    destruct (decide (config_id c = activeConfigId st)); simpl;
      split; intros ?; done. }
  split; [done|].
  split.
  { rewrite Hc. simpl. by rewrite lookup_insert_eq. }
  match goal with
  | |- context [connectionParams (storage ?e)] => set (env' := e) in *
  end.
  destruct (connectionParams_lookup (storage env'))
    as (-> & -> & -> & -> & ->).
  destruct (connectionParams_lookup (storage env)) as (_ & -> & _ & _ & ->).
  rewrite (getItemOr_stored _ _ _ Hm), (getItemOr_stored _ _ _ Hu).
  split; [done|]. split; [done|].
  split.
  { unfold getItemOr. rewrite Ht. by destruct (llmType st). }
  split.
  { destruct (llmType st).
    - by rewrite (getItemOr_stored _ _ _ Hk).
    - unfold getItemOr. rewrite Hk. simpl. by rewrite lookup_insert_ne. }
  unfold getItemOr. rewrite Hl. simpl. by rewrite lookup_insert_ne.
Qed.

Lemma handleSave_stores_connection_witness :
  connectionParams
    (storage (handleSave (host := sampleHost) 5 threeConfigs emptyEnv).2)
  !! "llm_type" = Some "ollama".
Proof.
  pose proof (handleSave_stores_connection (host := sampleHost) 5
                threeConfigs emptyEnv eq_refl)
    as (_ & _ & _ & _ & _ & _ & _ & Htype & _).
  exact Htype.
Defined.

Lemma filter_absent_id (i : string) (l : list APIConfig) :
  i ∉ map config_id l -> filter (fun c => config_id c <> i) l = l.
Proof.
  induction l as [|c l IH]; intros Hnin; [done|].
  rewrite filter_cons.
  change (map config_id (c :: l)) with (config_id c :: map config_id l) in Hnin.
  apply not_elem_of_cons in Hnin as [Hc Hl].
  rewrite decide_True by congruence. f_equal. by apply IH.
Qed.

(** X16: deleting a configuration removes every configuration with that
    identifier and keeps the others in their order, and stores the new
    list.  When the deleted one was not active, the active identifier, the
    form and the stored active identifier stay and no model list is
    requested; when it was active, the first remaining configuration
    becomes active (none when the list is empty) and the stored active
    identifier follows. *)
Theorem handleDeleteConfig_removes {host : SidebarHost} (i : string)
    (st : SidebarState) (env : SidebarEnv) :
  let st' := (handleDeleteConfig i st env).1 in
  let env' := (handleDeleteConfig i st env).2 in
  configs st' = filter (fun c => config_id c <> i) (configs st)
  /\ (i ∉ map config_id (configs st'))
  /\ (configs st' `sublist_of` configs st)
  /\ (i ∉ map config_id (configs st) -> configs st' = configs st)
  /\ storage env' !! "apiConfigs" = Some (stringifyConfigs (configs st'))
  /\ (i <> activeConfigId st ->
      activeConfigId st' = activeConfigId st
      /\ (llmType st', baseUrl st', model st', apiKey st')
         = (llmType st, baseUrl st, model st, apiKey st)
      /\ storage env' !! "activeConfigId" = storage env !! "activeConfigId"
      /\ modelListRequests env' = modelListRequests env)
  /\ (i = activeConfigId st ->
      activeConfigId st'
      = match configs st' with first :: _ => config_id first | [] => "" end
      /\ storage env' !! "activeConfigId" = Some (activeConfigId st')).
Proof.
  intros st' env'. subst st' env'. unfold handleDeleteConfig.
  set (updated := filter (fun c => config_id c <> i) (configs st)).
  assert (i ∉ map config_id updated) as Hgone.
  { intros Hin. apply list_elem_of_fmap in Hin as (c & Hid & Hc).
    apply list_elem_of_filter in Hc as [Hne _]. by apply Hne. }
  assert (i ∉ map config_id (configs st) -> updated = configs st) as Hsame.
  { intros Hnin. subst updated. by apply filter_absent_id. }
  destruct (decide (i = activeConfigId st)) as [Hact|Hact].
  - destruct updated as [|first rest] eqn:Hupd.
    + cbn [fst snd]. simpl.
      repeat split; try done.
      * rewrite <- Hupd. apply sublist_filter.
      * rewrite lookup_insert_ne by discriminate. by rewrite lookup_insert_eq.
      * by rewrite lookup_insert_eq.
    + destruct (loadConfigToForm first _ env) as [st2 env2] eqn:Hload.
      match type of Hload with
      | loadConfigToForm ?cfg ?s ?e = _ =>
          pose proof (loadConfigToForm_keeps cfg s e) as (Hc & Ha & _ & Hs)
      end.
      rewrite Hload in Hc, Ha, Hs. cbn [fst snd] in *. simpl in Hc, Ha.
      rewrite Hc, Ha. simpl.
      repeat split; try done.
      * rewrite <- Hupd. apply sublist_filter.
      * rewrite lookup_insert_ne by discriminate. by rewrite lookup_insert_eq.
      * by rewrite lookup_insert_eq.
  - cbn [fst snd]. simpl.
    repeat split; try done.
    + apply sublist_filter.
    + by rewrite lookup_insert_eq.
    + by rewrite lookup_insert_ne by discriminate.
Qed.

Lemma handleDeleteConfig_removes_witness :
  activeConfigId
    (handleDeleteConfig (host := sampleHost) "gemini_default" threeConfigs
       emptyEnv).1 = "api_1".
Proof.
  pose proof (handleDeleteConfig_removes (host := sampleHost) "gemini_default"
                threeConfigs emptyEnv) as (_ & _ & _ & _ & _ & Hother & _).
  destruct Hother as [Hactive _]; [discriminate | exact Hactive].
Defined.



(** ** The character download modal *)

(** X18: a list of files cached at one time is given back by
    [getCachedData] at a later time exactly while less than five minutes
    (300000 ms) have passed; from then on, and when nothing is stored, the
    answer is that nothing is cached.  (The stored text must be non-empty and
    parse back to the record, as JSON texts do.) *)
Theorem character_cache_round_trip {codec : CacheCodec} (t0 t1 : Z)
    (data : list GithubFile) (ls : gmap string string) :
  stringifyCache (data, t0) <> "" ->
  parseCache (stringifyCache (data, t0)) = Some (data, t0) ->
  getCachedData t1 (setCachedData t0 data ls)
  = (if (t1 - t0 <? 300000)%Z then Some data else None)
  /\ ((t1 - t0 < 300000)%Z ->
      getCachedData t1 (setCachedData t0 data ls) = Some data)
  /\ ((300000 <= t1 - t0)%Z ->
      getCachedData t1 (setCachedData t0 data ls) = None)
  /\ (ls !! CACHE_KEY = None -> getCachedData t1 ls = None)
  /\ (forall key, key <> CACHE_KEY ->
        setCachedData t0 data ls !! key = ls !! key).
Proof.
  intros Hne Hparse.
  assert (getCachedData t1 (setCachedData t0 data ls)
          = (if (t1 - t0 <? 300000)%Z then Some data else None)) as Hget.
  { unfold getCachedData, setCachedData. rewrite lookup_insert_eq.
    by rewrite (proj2 (truthy_true _) Hne), Hparse. }
  split; [done|]. split; [|split; [|split]].
  - intros Hlt. rewrite Hget. by destruct (Z.ltb_spec (t1 - t0) 300000); [|lia].
  - intros Hge. rewrite Hget. by destruct (Z.ltb_spec (t1 - t0) 300000); [lia|].
  - intros Hnone. unfold getCachedData. by rewrite Hnone.
  - intros key Hkey. unfold setCachedData. by rewrite lookup_insert_ne.
Qed.

Lemma character_cache_round_trip_witness :
  getCachedData (codec := sampleCodec) 200000
    (setCachedData (codec := sampleCodec) 1000 sampleFiles ∅)
  = Some sampleFiles.
Proof.
  destruct (character_cache_round_trip (codec := sampleCodec) 1000 200000
              sampleFiles ∅) as (_ & Hfresh & _).
  - discriminate.
  - reflexivity.
  - apply Hfresh. lia.
Defined.



(** *** Batches *)

Lemma ceilDiv_step (a b : nat) :
  0 < b -> 0 < a -> ceilDiv a b = S (ceilDiv (a - b) b).
Proof.
  intros Hb Ha. unfold ceilDiv.
  destruct (Nat.le_gt_cases b a) as [Hle|Hlt].
  - replace (a + (b - 1)) with ((a - b + (b - 1)) + 1 * b) by lia.
    rewrite Nat.div_add by lia. lia.
  - replace (a - b) with 0 by lia.
    rewrite (Nat.div_small (0 + (b - 1)) b) by lia.
    assert ((a + (b - 1)) / b = 1) as ->; [|done].
    replace (a + (b - 1)) with ((a - 1) + 1 * b) by lia.
    rewrite Nat.div_add by lia. rewrite Nat.div_small by lia. done.
Qed.

Lemma batchLoop_chunks {A : Type} (batchSize : nat) (l : list A) :
  0 < batchSize ->
  forall fuel i acc,
    length l <= i + batchSize * fuel ->
    exists chunks,
      batchLoop fuel batchSize i l acc = Some (acc ++ chunks)
      /\ concat chunks = drop i l
      /\ Forall (fun b => 1 <= length b <= batchSize) chunks
      /\ length chunks = ceilDiv (length l - i) batchSize.
Proof.
  intros Hb. induction fuel as [|f IH]; intros i acc Hfuel.
  - exists []. simpl.
    destruct (Nat.ltb_spec i (length l)); [lia|].
    rewrite app_nil_r, drop_ge by lia.
    replace (length l - i) with 0 by lia.
    unfold ceilDiv. rewrite Nat.div_small by lia. done.
  - simpl. destruct (Nat.ltb_spec i (length l)) as [Hlt|Hge].
    + destruct (IH (i + batchSize) (acc ++ [slice i (i + batchSize) l]))
        as (chunks & Hloop & Hconcat & Hall & Hlen); [lia|].
      exists (slice i (i + batchSize) l :: chunks).
      unfold slice in *. replace (i + batchSize - i) with batchSize in * by lia.
      split; [by rewrite Hloop, <- app_assoc|].
      split.
      { simpl. rewrite Hconcat, <- drop_drop. apply take_drop. }
      split.
      { constructor; [|done]. rewrite length_take, length_drop. lia. }
      simpl. rewrite Hlen.
      rewrite (ceilDiv_step (length l - i) batchSize) by lia.
      do 2 f_equal. lia.
    + exists []. rewrite app_nil_r, drop_ge by lia.
      replace (length l - i) with 0 by lia.
      unfold ceilDiv. rewrite Nat.div_small by lia. done.
Qed.

(** X20: the loop that cuts the images to preload into batches ends within
    as many iterations as there are images; the batches, put end to end,
    are the images to preload in their order; every batch holds between one
    and eight of them; there are as many batches as the number of images
    divided by eight, rounded up; and the images to preload are the files
    that the image cache does not record as loaded. *)
Theorem preload_batches_partition {codec : CacheCodec} (nowMs : Z)
    (ls : gmap string string) (files : list GithubFile) :
  let pending := imagesToPreload (getImageCache nowMs ls) files in
  exists batches,
    preloadBatches (length pending) nowMs ls files = Some batches
    /\ concat batches = pending
    /\ Forall (fun b => 1 <= length b <= 8) batches
    /\ length batches = ceilDiv (length pending) 8
    /\ (forall file,
          file ∈ concat batches <->
          file ∈ files
          /\ cachedLoaded (getImageCache nowMs ls) (file_name file) = false)
    /\ (forall fuel batches',
          preloadBatches fuel nowMs ls files = Some batches' ->
          batches' = batches).
Proof.
  intros pending. unfold preloadBatches. fold pending.
  destruct (batchLoop_chunks 8 pending ltac:(lia) (length pending) 0 [])
    as (batches & Hloop & Hconcat & Hall & Hlen); [lia|].
  simpl in Hloop. rewrite drop_0 in Hconcat. rewrite Nat.sub_0_r in Hlen.
  exists batches. split; [done|]. split; [done|]. split; [done|].
  split; [done|]. split.
  - intros file. rewrite Hconcat. subst pending. unfold imagesToPreload.
    rewrite list_elem_of_filter. tauto.
  - assert (forall fuel (i : nat) acc r,
               batchLoop fuel 8 i pending acc = Some r ->
               forall fuel', fuel <= fuel' ->
                 batchLoop fuel' 8 i pending acc = Some r) as Hmono.
    { induction fuel as [|f IH]; intros i acc r Hr fuel' Hle.
      - simpl in Hr. destruct (Nat.ltb_spec i (length pending)); [done|].
        destruct fuel'; simpl;
          by destruct (Nat.ltb_spec i (length pending)); [lia|].
      - destruct fuel' as [|f']; [lia|]. simpl in *.
        destruct (i <? length pending); [|done].
        apply IH; [done | lia]. }
    intros fuel batches' Hb.
    pose proof (Hmono _ _ _ _ Hb (Nat.max fuel (length pending))
                  ltac:(lia)) as H1.
    pose proof (Hmono _ _ _ _ Hloop (Nat.max fuel (length pending))
                  ltac:(lia)) as H2.
    congruence.
Qed.

(** *** Tags *)

Lemma substring_all (s : string) : String.substring 0 (String.length s) s = s.
Proof. induction s as [|a s IH]; simpl; [done | by rewrite IH]. Qed.

Lemma tag_categories {text : Text} :
  map fst TAG_KEYWORDS = ["Cultivation"; "Fantasy"; "NSFW"; "Fanfiction"].
Proof. reflexivity. Qed.

Lemma tags_of_info {lang : Language} {text : Text} (fileName : string) :
  exists matched,
    matched `sublist_of` ["Cultivation"; "Fantasy"; "NSFW"; "Fanfiction"]
    /\ tags (extractCharacterInfo fileName)
       = match matched with [] => ["Other"] | _ => matched end.
Proof.
  unfold extractCharacterInfo.
  destruct (match splitDashes (dropPng fileName) "" with
            | [p0; p1] => _ | _ => _ end) as [shown who].
  eexists. split; [|reflexivity].
  rewrite <- tag_categories.
  change (map fst ?l) with (fst <$> l).
  apply fmap_sublist, sublist_filter.
Qed.

Lemma four_categories_distinct :
  NoDup ["Cultivation"; "Fantasy"; "NSFW"; "Fanfiction"].
Proof.
  repeat (constructor;
          [intros Hin; apply list_elem_of_In in Hin; simpl in Hin;
           intuition discriminate|]).
  constructor.
Qed.

Lemma extractCharacterInfo_tags_nonempty {lang : Language} {text : Text}
    (fileName : string) :
  tags (extractCharacterInfo fileName) <> [].
Proof.
  destruct (tags_of_info fileName) as (matched & _ & ->). by destruct matched.
Qed.

Lemma extractCharacterInfo_tags_known {lang : Language} {text : Text}
    (fileName tag : string) :
  tag ∈ tags (extractCharacterInfo fileName) -> tag ∈ TAGS.
Proof.
  destruct (tags_of_info fileName) as (matched & Hsub & ->).
  unfold TAGS. destruct matched as [|m ms].
  - intros ->%list_elem_of_singleton. rewrite !elem_of_cons. auto 10.
  - intros Htag. pose proof (elem_of_sublist _ _ _ Htag Hsub) as H4.
    apply list_elem_of_In in H4. simpl in H4.
    destruct H4 as [<-|[<-|[<-|[<-|[]]]]]; rewrite !elem_of_cons; auto 10.
Qed.

(** X21: every file gets at least one tag; its tags are tags of the filter
    bar, without repetition; "Other" is given exactly when no keyword of any
    category is found, and then it is the only tag.  The author shown is the
    placeholder unless the name (without ".png") holds "--" exactly once, and
    in that case it has at most five characters. *)
Theorem extractCharacterInfo_tags {lang : Language} {text : Text}
    (fileName : string) :
  let info := extractCharacterInfo fileName in
  tags info <> []
  /\ (forall tag, tag ∈ tags info -> tag ∈ TAGS)
  /\ NoDup (tags info)
  /\ ("Other" ∈ tags info <-> tags info = ["Other"])
  /\ (forall p0 p1, splitDashes (dropPng fileName) "" = [p0; p1] ->
        displayName info = trim p0
        /\ String.length (author info) <= 5
        /\ String.prefix (author info) (trim p1) = true)
  /\ (length (splitDashes (dropPng fileName) "") <> 2 ->
      displayName info = dropPng fileName
      /\ author info = t "downloadModal.unknownAuthor").
Proof.
  intros info. subst info.
  destruct (tags_of_info fileName) as (matched & Hsub & Htags).
  assert (NoDup matched) as Hnd
    by (eapply sublist_NoDup; [apply four_categories_distinct | done]).
  assert (forall tag, tag ∈ matched -> tag ∈ TAGS /\ tag <> "Other") as Hin.
  { intros tag Htag. pose proof (elem_of_sublist _ _ _ Htag Hsub) as H4.
    apply list_elem_of_In in H4. simpl in H4. unfold TAGS.
    rewrite !elem_of_cons.
    destruct H4 as [<-|[<-|[<-|[<-|[]]]]]; split; try discriminate; tauto. }
  split; [|split; [|split; [|split; [|split]]]].
  - rewrite Htags. by destruct matched.
  - intros tag. rewrite Htags. destruct matched as [|m ms].
    + intros ->%list_elem_of_singleton. unfold TAGS.
      rewrite !elem_of_cons. tauto.
    + intros Htag. by apply Hin.
  - rewrite Htags. destruct matched; [|done].
    constructor; [apply not_elem_of_nil | constructor].
  - rewrite Htags. destruct matched as [|m ms].
    + split; [done|]. intros _. by apply list_elem_of_singleton.
    + split.
      * intros Hother. by destruct (Hin _ Hother).
      * intros Heq. rewrite Heq. by apply list_elem_of_singleton.
  - intros p0 p1 Hparts. unfold extractCharacterInfo. rewrite Hparts. simpl.
    split; [done|].
    destruct (Nat.ltb_spec 5 (String.length (trim p1))) as [Hlong|Hshort].
    + split; [by rewrite substring_length by lia | apply substring_prefix].
    + split; [done|]. apply String.prefix_correct.
      apply substring_all.
  - intros Hlen. unfold extractCharacterInfo.
    destruct (splitDashes (dropPng fileName) "") as [|p0 [|p1 [|p2 rest]]];
      simpl in Hlen; try done.
Qed.

Lemma extractCharacterInfo_tags_witness :
  String.length
    (author (extractCharacterInfo (lang := sampleLanguage) (text := sampleText)
               "Sword fantasy--alice-in-wonderland.png")) <= 5.
Proof.
  pose proof (extractCharacterInfo_tags (lang := sampleLanguage)
                (text := sampleText) "Sword fantasy--alice-in-wonderland.png")
    as (_ & _ & _ & _ & Hauthor & _).
  destruct (Hauthor "Sword fantasy" "alice-in-wonderland" eq_refl)
    as (_ & Hlen & _).
  exact Hlen.
Defined.

Lemma hasTag_own {lang : Language} {text : Text} (file : GithubFile)
    (tag : string) :
  tag ∈ tags (extractCharacterInfo (file_name file)) ->
  hasTag tag file = true.
Proof.
  intros Hin. unfold hasTag. apply existsb_exists. exists tag.
  split; [by apply list_elem_of_In | by apply bool_decide_eq_true].
Qed.

Lemma tagCounts_lookup {lang : Language} {text : Text}
    (characterFiles : list GithubFile) (tag : string) :
  tag ∈ TAGS ->
  tagCounts characterFiles !! tag
  = Some (length (filter (fun file => hasTag tag file = true) characterFiles)).
Proof.
  intros Hin. apply list_elem_of_In in Hin. unfold tagCounts, TAGS in *.
  simpl in Hin. cbn [foldl].
  destruct Hin as [<-|[<-|[<-|[<-|[<-|[]]]]]];
    repeat first [ rewrite lookup_insert_eq
                 | rewrite lookup_insert_ne by discriminate ]; done.
Qed.

(** X22: the tag filter and the tag counters agree.  The filter "all"
    shows every file and the counter [all] is their number; for each tag of
    the filter bar the counter is the number of files the filter shows,
    which are files of the list in their order; and every file is shown
    under at least one tag of the bar, namely under each of its own tags. *)
Theorem tag_filter_counts {lang : Language} {text : Text}
    (characterFiles : list GithubFile) :
  filteredCharacters characterFiles "all" = characterFiles
  /\ tagCounts characterFiles !! "all" = Some (length characterFiles)
  /\ (forall tag, tag ∈ TAGS ->
        tagCounts characterFiles !! tag
        = Some (length (filteredCharacters characterFiles tag))
        /\ filteredCharacters characterFiles tag `sublist_of` characterFiles)
  /\ (forall file, file ∈ characterFiles ->
        exists tag, tag ∈ TAGS
                    /\ tag ∈ tags (extractCharacterInfo (file_name file))
                    /\ file ∈ filteredCharacters characterFiles tag).
Proof.
  assert (forall tag, tag ∈ TAGS -> tag <> "all") as Hnot_all.
  { intros tag Hin ->. apply list_elem_of_In in Hin. simpl in Hin.
    intuition discriminate. }
  split; [done|]. split; [|split].
  - unfold tagCounts, TAGS. cbn [foldl].
    repeat rewrite lookup_insert_ne by discriminate.
    by rewrite lookup_insert_eq.
  - intros tag Hin. unfold filteredCharacters.
    rewrite decide_False by (by apply Hnot_all).
    split; [by apply tagCounts_lookup | apply sublist_filter].
  - intros file Hfile.
    destruct (tags (extractCharacterInfo (file_name file))) as [|tag rest]
      eqn:Htags.
    + exfalso. by apply (extractCharacterInfo_tags_nonempty (file_name file)).
    + assert (tag ∈ tags (extractCharacterInfo (file_name file))) as Hown
        by (rewrite Htags; by left).
      exists tag.
      assert (tag ∈ TAGS) as HT
        by (by apply (extractCharacterInfo_tags_known (file_name file))).
      split; [done|]. split; [by rewrite <- Htags|].
      unfold filteredCharacters.
      rewrite decide_False by (by apply Hnot_all).
      apply list_elem_of_filter. split; [by apply hasTag_own | done].
Qed.

Lemma tag_filter_counts_witness :
  tagCounts (lang := sampleLanguage) (text := sampleText) sampleFiles
  !! "Fantasy"
  = Some (length (filteredCharacters (lang := sampleLanguage)
                    (text := sampleText) sampleFiles "Fantasy")).
Proof.
  pose proof (tag_filter_counts (lang := sampleLanguage) (text := sampleText)
                sampleFiles) as (_ & _ & Hcount & _).
  apply (Hcount "Fantasy"). apply list_elem_of_In. simpl. tauto.
Defined.

(** *** Loading the list *)

(** X23: when the modal opens with a list cached less than five minutes
    ago, it shows that list without sending a request and without touching
    local storage.  Otherwise it sends the request; from a list of files it
    shows and caches exactly those whose name ends in ".png", in their
    order; a failed request leaves the files shown as they were, reports the
    fetch error and ends the loading.  In every case the loading flag is
    lowered. *)
Theorem loadCharacters_outcomes {lang : Language} {codec : CacheCodec}
    (readMs storeMs preloadMs : Z) (response : option (list GithubFile))
    (st : DownloadState) (ls : gmap string string) :
  let result := loadCharacters readMs storeMs preloadMs response st ls in
  loading result.1.1 = false
  /\ (forall cached, getCachedData readMs ls = Some cached ->
        characterFiles result.1.1 = cached
        /\ result.1.2 = ls /\ result.2 = false
        /\ error result.1.1 = None)
  /\ (getCachedData readMs ls = None ->
      result.2 = true
      /\ (forall data, response = Some data ->
            characterFiles result.1.1
            = filter (fun item => endsWith (file_name item) ".png" = true) data
            /\ (forall file, file ∈ characterFiles result.1.1 ->
                  file ∈ data /\ endsWith (file_name file) ".png" = true)
            /\ characterFiles result.1.1 `sublist_of` data
            /\ result.1.2 !! CACHE_KEY
               = Some (stringifyCache (characterFiles result.1.1, storeMs))
            /\ error result.1.1 = None)
      /\ (response = None ->
          characterFiles result.1.1 = characterFiles st
          /\ error result.1.1 = Some (t "downloadModal.fetchError")
          /\ loadingStage result.1.1 = complete
          /\ result.1.2 = ls)).
Proof.
  unfold loadCharacters.
  destruct (getCachedData readMs ls) as [cached|] eqn:Hcache.
  - destruct (startPreload preloadMs ls cached (preloadingImages st) fetching)
      as [busy stage].
    simpl. split; [done|]. split; [|done].
    intros cached' [= <-]. done.
  - destruct response as [data|].
    + destruct (startPreload _ _ _ _ _) as [busy stage].
      simpl. split; [done|]. split; [done|]. intros _. split; [done|].
      split; [|done]. intros data' [= <-].
      split; [done|]. split.
      { intros file Hin. apply list_elem_of_filter in Hin. tauto. }
      split; [apply sublist_filter|].
      split; [|done]. unfold setCachedData. by rewrite lookup_insert_eq.
    + simpl. split; [done|]. split; [done|]. intros _. split; [done|].
      split; [done|]. done.
Qed.

Lemma loadCharacters_outcomes_witness :
  characterFiles
    (loadCharacters (lang := sampleLanguage) (codec := sampleCodec) 0 5 6
       (Some (mkGithubFile "README.md" "" :: sampleFiles))
       closedDownload ∅).1.1
  = sampleFiles.
Proof.
  pose proof (loadCharacters_outcomes (lang := sampleLanguage)
                (codec := sampleCodec) 0 5 6
                (Some (mkGithubFile "README.md" "" :: sampleFiles))
                closedDownload ∅) as (_ & _ & Hfetch).
  destruct Hfetch as (_ & Hdata & _); [reflexivity|].
  destruct (Hdata _ eq_refl) as (Hshown & _).
  rewrite Hshown. vm_compute. reflexivity.
Defined.
